(** * Assembly: Endgame -- the game logic of [src/App.jsx]

    A shallow embedding of the [App] component: its two pieces of React
    state, the facts it derives from them on every render, its two event
    handlers and the elements it renders from the derived facts.

    JavaScript values are modelled as follows.
    - a string is a [string] of code units (the words and the keyboard are
      ASCII); [undefined] is [None];
    - a number is a [Z], so that [languages.length - 1] may be negative;
    - an array is a [list];
    - a call that may throw returns a [completion].

    [./languages] and [./utils] are imported by [App.jsx]: the ladder
    [languages] and [getFarewellText] are parameters of the component, and
    the random pick of [getRandomWord] is an argument of whatever calls it. *)

From Stdlib Require Import String Ascii List ZArith Lia Bool Permutation.
Import ListNotations.
Open Scope string_scope.
Open Scope Z_scope.

(** ** The JavaScript built-ins the component calls *)
Module Js.

(** A thrown value, named by its error class. *)
Inductive completion (A : Type) : Type :=
| Normal (a : A)
| Throw (error : string).
Arguments Normal {A} a.
Arguments Throw {A} error.

(** [s.split("")]: one string per code unit. *)
Definition split (s : string) : list string :=
  map (fun c => String c "") (list_ascii_of_string s).

(** [s.includes(search)]: [search] occurs in [s] at some position. *)
Fixpoint includes (s search : string) : bool :=
  prefix search s ||
  match s with
  | EmptyString => false
  | String _ rest => includes rest search
  end.

(** [a.includes(x)] on an array of strings. *)
Definition arr_includes (a : list string) (x : string) : bool :=
  existsb (String.eqb x) a.

(** [a[i]]: [undefined] outside the array. *)
Definition get {A : Type} (a : list A) (i : Z) : option A :=
  if i <? 0 then None else nth_error a (Z.to_nat i).

(** [a.length] *)
Definition length {A : Type} (a : list A) : Z := Z.of_nat (List.length a).

(** [a.map((x, index) => f x index)] *)
Fixpoint mapi_from {A B : Type} (f : A -> nat -> B) (i : nat) (a : list A) : list B :=
  match a with
  | [] => []
  | x :: rest => f x i :: mapi_from f (S i) rest
  end.

Definition mapi {A B : Type} (f : A -> nat -> B) (a : list A) : list B :=
  mapi_from f 0 a.

(** Truthiness of a string or [undefined]: only [undefined] and the empty
    string are falsy. *)
Definition truthy (v : option string) : bool :=
  match v with
  | None => false
  | Some EmptyString => false
  | Some (String _ _) => true
  end.

(** [s.toUpperCase()] on ASCII code units. *)
Definition upper (c : ascii) : ascii :=
  let n := nat_of_ascii c in
  if (Nat.leb 97 n && Nat.leb n 122)%bool then ascii_of_nat (n - 32) else c.

Fixpoint toUpperCase (s : string) : string :=
  match s with
  | EmptyString => EmptyString
  | String c rest => String (upper c) (toUpperCase rest)
  end.

(** [clsx({k1: b1, ...})]: the keys whose value is truthy, joined by a space. *)
Definition clsx (entries : list (string * bool)) : string :=
  String.concat " " (map fst (filter snd entries)).

End Js.

(** ** Data *)

(** An entry of the [languages] array. *)
Record Language : Type := mkLanguage {
  name : string;
  backgroundColor : string;
  color : string
}.

(** The two [useState] cells of the component. *)
Record State : Type := mkState {
  currentWord : string;
  guessedLetters : list string
}.

(** What [gameStatus()] renders. *)
Inductive StatusMessage : Type :=
| FarewellMessage (text : string)
| YouWin
| GameOver
| NoMessage.

(** The three phases of a round. *)
Inductive Phase : Type := Playing | Won | Lost.

(** A language chip. *)
Record Chip : Type := mkChip {
  chip_className : string;
  chip_style : string * string;
  chip_key : string;
  chip_text : string
}.

(** A cell of the displayed word. *)
Record LetterSpan : Type := mkLetterSpan {
  span_key : nat;
  span_className : string;
  span_text : string
}.

(** A key of the on-screen keyboard; [btn_onClick] is the argument its
    handler passes to [addGuessedLetter]. *)
Record Button : Type := mkButton {
  btn_className : string;
  btn_key : string;
  btn_disabled : bool;
  btn_ariaDisabled : bool;
  btn_ariaLabel : string;
  btn_onClick : string;
  btn_text : string
}.

(** ** State updates *)

Definition setCurrentWord (w : string) (s : State) : State :=
  {| currentWord := w; guessedLetters := guessedLetters s |}.

Definition setGuessedLetters (update : list string -> list string) (s : State) : State :=
  {| currentWord := currentWord s; guessedLetters := update (guessedLetters s) |}.

(** The initial values of the two cells; [picked] is what [getRandomWord()]
    returned. *)
Definition initState (picked : string) : State :=
  {| currentWord := picked; guessedLetters := [] |}.

(** [addGuessedLetter(letter)] *)
Definition addGuessedLetter (letter : string) (s : State) : State :=
  setGuessedLetters
    (fun prevLetters =>
       if Js.arr_includes prevLetters letter then prevLetters
       else (prevLetters ++ [letter])%list)
    s.

(** [addGuessedLetter] holds no [throw] and calls nothing that throws. *)
Definition addGuessedLetter_completion (letter : string) (s : State) : Js.completion State :=
  Js.Normal (addGuessedLetter letter s).

(** [newGame()]: both setters run in the one handler, and the next render
    sees both updates. *)
Definition newGame (picked : string) (s : State) : State :=
  setGuessedLetters (fun _ => []) (setCurrentWord picked s).

(** A run of the two handlers, called directly. *)
Inductive Call : Type :=
| CallNewGame (picked : string)
| CallAddGuessedLetter (letter : string).

Definition call (s : State) (c : Call) : State :=
  match c with
  | CallNewGame picked => newGame picked s
  | CallAddGuessedLetter letter => addGuessedLetter letter s
  end.

Definition calls (cs : list Call) (s : State) : State := fold_left call cs s.

Definition guesses (letters : list string) (s : State) : State :=
  fold_left (fun st letter => addGuessedLetter letter st) letters s.

(** ** The component *)
Section App.

Variable languages : list Language.
Variable getFarewellText : string -> string.

Definition guessesLeft : Z := Js.length languages - 1.

Definition isWrong (s : State) (letter : string) : bool :=
  negb (Js.includes (currentWord s) letter).

Definition wrongGuessCount (s : State) : Z :=
  Js.length (filter (isWrong s) (guessedLetters s)).

Definition isGameWon (s : State) : bool :=
  forallb (fun letter => Js.arr_includes (guessedLetters s) letter)
          (Js.split (currentWord s)).

Definition isGameLost (s : State) : bool := wrongGuessCount s >=? guessesLeft.

Definition isGameOver (s : State) : bool := isGameWon s || isGameLost s.

Definition lastGuessedLetter (s : State) : option string :=
  Js.get (guessedLetters s) (Js.length (guessedLetters s) - 1).

(** [lastGuessedLetter && !currentWord.includes(lastGuessedLetter)], as
    the condition it is used for. *)
Definition isLastGuessCorrect (s : State) : bool :=
  Js.truthy (lastGuessedLetter s) &&
  match lastGuessedLetter s with
  | Some letter => negb (Js.includes (currentWord s) letter)
  | None => false
  end.

Definition alphabet : string := "abcdefghijklmnopqrstuvwxyz".

(** The condition of the farewell branch of [gameStatus] and of the
    [farewell] class. *)
Definition farewellEligible (s : State) : bool :=
  negb (isGameOver s) && isLastGuessCorrect s.

(** [gameStatus()]; reading [.name] of [undefined] throws a TypeError. *)
Definition gameStatus (s : State) : Js.completion StatusMessage :=
  if negb (isGameOver s) && isLastGuessCorrect s then
    match Js.get languages (wrongGuessCount s - 1) with
    | Some lang => Js.Normal (FarewellMessage (getFarewellText (name lang)))
    | None => Js.Throw "TypeError"
    end
  else if isGameWon s then Js.Normal YouWin
  else if isGameLost s then Js.Normal GameOver
  else Js.Normal NoMessage.

(** The phase of the round, in the order [gameStatus] tests it. *)
Definition phase (s : State) : Phase :=
  if isGameWon s then Won
  else if isGameLost s then Lost
  else Playing.

Definition isLanguageLost (s : State) (index : nat) : bool :=
  Z.of_nat index <? wrongGuessCount s.

Definition languageElements (s : State) : list Chip :=
  Js.mapi
    (fun lang index =>
       {| chip_className := "chip " ++ (if isLanguageLost s index then "lost" else "");
          chip_style := (backgroundColor lang, color lang);
          chip_key := name lang;
          chip_text := name lang |})
    languages.

Definition letterElements (s : State) : list LetterSpan :=
  Js.mapi
    (fun letter index =>
       let revealLetter := isGameLost s || Js.arr_includes (guessedLetters s) letter in
       let letterClassName :=
         if isGameLost s && negb (Js.arr_includes (guessedLetters s) letter)
         then "missed-letter" else "" in
       {| span_key := index;
          span_className := letterClassName;
          span_text := if revealLetter then Js.toUpperCase letter else "" |})
    (Js.split (currentWord s)).

Definition keyboardElements (s : State) : list Button :=
  map
    (fun letter =>
       let isGuessed := Js.arr_includes (guessedLetters s) letter in
       let isCorrect := isGuessed && Js.includes (currentWord s) letter in
       let isWrong := isGuessed && negb (Js.includes (currentWord s) letter) in
       {| btn_className := Js.clsx [("correct", isCorrect); ("wrong", isWrong)];
          btn_key := letter;
          btn_disabled := isGameOver s;
          btn_ariaDisabled := Js.arr_includes (guessedLetters s) letter;
          btn_ariaLabel := "Letter " ++ letter;
          btn_onClick := letter;
          btn_text := Js.toUpperCase letter |})
    (Js.split alphabet).

(** ** What the player can do *)

(** A click on a key: a disabled button fires no handler. *)
Definition clickButton (b : Button) (s : State) : State :=
  if btn_disabled b then s else addGuessedLetter (btn_onClick b) s.

(** A click on the key of [letter], if the keyboard has one. *)
Definition clickLetter (letter : string) (s : State) : State :=
  match find (fun b => String.eqb (btn_key b) letter) (keyboardElements s) with
  | Some b => clickButton b s
  | None => s
  end.

Inductive Command : Type :=
| NewGame (picked : string)
| GuessLetter (letter : string).

(** A command as the rendered component takes it: a guess is a click on
    the keyboard; a new round may start at any time (the component renders
    its button only once the game is over, which allows less). *)
Definition step (s : State) (c : Command) : State :=
  match c with
  | NewGame picked => newGame picked s
  | GuessLetter letter => clickLetter letter s
  end.

Definition run (cs : list Command) (s : State) : State := fold_left step cs s.

End App.

Arguments step languages s c : simpl nomatch.

(** The words picked by the [NewGame] commands of a run. *)
Fixpoint picks (cs : list Command) : list string :=
  match cs with
  | [] => []
  | NewGame picked :: rest => picked :: picks rest
  | GuessLetter _ :: rest => picks rest
  end.

(** ** The rest of what the component renders *)

(** The string a [string] or [undefined] is converted to, by
    [String.prototype.includes] for its argument and by a template literal
    for its holes. *)
Definition js_toString (v : option string) : string :=
  match v with
  | Some text => text
  | None => "undefined"
  end.

(** The first paragraph of the screen-reader status: the sentence on the
    last guess, and the number printed after "You have". *)
Record Announcement : Type := mkAnnouncement {
  sr_sentence : string;
  sr_attempts : Z
}.

Section Rendering.

Variable languages : list Language.

(** [gameStatusClass]: [clsx] keeps its string argument, which is truthy,
    and the keys of the object whose value is truthy. *)
Definition gameStatusClass (s : State) : string :=
  Js.clsx [("game-status", true);
           ("won", isGameWon s);
           ("lost", isGameLost languages s);
           ("farewell", negb (isGameOver languages s) && isLastGuessCorrect s)].

(** [isGameOver && <button className="new-game" ...>] *)
Definition newGameButtonShown (s : State) : bool := isGameOver languages s.

(** A click on "New Game": there is a button to click only when it is
    rendered. *)
Definition clickNewGame (picked : string) (s : State) : State :=
  if newGameButtonShown s then newGame picked s else s.

(** The sentence and the number of the screen-reader status. *)
Definition srStatus (s : State) : Announcement :=
  let lastGuessedLetter := lastGuessedLetter s in
  {| sr_sentence :=
       if Js.includes (currentWord s) (js_toString lastGuessedLetter)
       then "Correct! The letter " ++ js_toString lastGuessedLetter ++ " is in the word"
       else "Sorry, the letter " ++ js_toString lastGuessedLetter ++ " is not in the word";
     sr_attempts := guessesLeft languages |}.

(** The pieces joined after "Current Word:". *)
Definition srWordPieces (s : State) : list string :=
  map (fun letter => if Js.arr_includes (guessedLetters s) letter then letter ++ "." else "blank")
      (Js.split (currentWord s)).

Definition srCurrentWord (s : State) : string := String.concat " " (srWordPieces s).

(** What a player can do with the rendered component: click a key, or
    click "New Game". *)
Inductive Click : Type :=
| ClickKey (letter : string)
| ClickNewGame (picked : string).

Definition click (s : State) (c : Click) : State :=
  match c with
  | ClickKey letter => clickLetter languages letter s
  | ClickNewGame picked => clickNewGame picked s
  end.

Definition clicks (cs : list Click) (s : State) : State := fold_left click cs s.

End Rendering.

Arguments click languages s c : simpl nomatch.

(** The keyboard's letters, and the letters of the words it can spell. *)
Definition onKeyboard (letter : string) : Prop := In letter (Js.split alphabet).

(** ** The specification's vocabulary *)

(** The specification's [lastGuess]: the most recently inserted element of
    the guesses, if there is one. *)
Definition spec_lastGuess (s : State) : option string :=
  match rev (guessedLetters s) with
  | [] => None
  | letter :: _ => Some letter
  end.

(** The specification's [lastGuessWasWrong]: [lastGuess] is defined and
    absent from the secret word. *)
Definition spec_lastGuessWasWrong (s : State) : bool :=
  match spec_lastGuess s with
  | None => false
  | Some letter => negb (Js.includes (currentWord s) letter)
  end.

(** The specification's legal guess: a single lowercase letter. *)
Definition spec_isLowercaseLetter (letter : string) : bool :=
  match letter with
  | String c EmptyString => (Nat.leb 97 (nat_of_ascii c) && Nat.leb (nat_of_ascii c) 122)%bool
  | _ => false
  end.

(** ** Sample data *)

(** A ladder of eight tiers, the size the specification reports. *)
Definition ladder8 : list Language :=
  map (fun n => {| name := n; backgroundColor := "#000000"; color := "#ffffff" |})
      ["tier0"; "tier1"; "tier2"; "tier3"; "tier4"; "tier5"; "tier6"; "tier7"].

Definition sampleFarewell (tierName : string) : string := "Farewell, " ++ tierName.

(** Seven letters that are not in "cat". *)
Definition sevenWrong : list string := ["x"; "y"; "z"; "q"; "w"; "e"; "r"].

(** ** Facts about the built-ins *)

Lemma arr_includes_In (a : list string) (x : string) :
  Js.arr_includes a x = true <-> In x a.
Proof.
  unfold Js.arr_includes. rewrite existsb_exists. split.
  - intros [y [Hin Heq]]. apply String.eqb_eq in Heq. now subst y.
  - intros Hin. exists x. split; [assumption | apply String.eqb_refl].
Qed.

Lemma arr_includes_not_In (a : list string) (x : string) :
  Js.arr_includes a x = false <-> ~ In x a.
Proof.
  rewrite <- arr_includes_In. destruct (Js.arr_includes a x); split; congruence.
Qed.

Lemma prefix_empty (s : string) : prefix "" s = true.
Proof. now destruct s. Qed.

Lemma includes_empty (s : string) : Js.includes s "" = true.
Proof. destruct s; simpl; reflexivity. Qed.

Lemma includes_char (s : string) (c : ascii) :
  Js.includes s (String c "") = true <-> In c (list_ascii_of_string s).
Proof.
  induction s as [|d rest IH]; simpl.
  - split; [discriminate | tauto].
  - rewrite orb_true_iff, IH. destruct (ascii_dec c d) as [->|Hne].
    + rewrite prefix_empty. tauto.
    + split; [intros [H|H]; [discriminate | now right] | intros [H|H]; [congruence | now right]].
Qed.

Lemma In_split (s letter : string) :
  In letter (Js.split s) <-> exists c, letter = String c "" /\ In c (list_ascii_of_string s).
Proof.
  unfold Js.split. rewrite in_map_iff. split; intros [c [H1 H2]]; exists c; auto.
Qed.

Lemma split_included (s letter : string) :
  In letter (Js.split s) -> Js.includes s letter = true.
Proof.
  rewrite In_split. intros [c [-> Hc]]. now apply includes_char.
Qed.

Lemma length_mapi_from {A B : Type} (f : A -> nat -> B) (a : list A) (i : nat) :
  List.length (Js.mapi_from f i a) = List.length a.
Proof.
  revert i. induction a as [|x rest IH]; intros i; simpl; [reflexivity | now rewrite IH].
Qed.

Lemma nth_error_mapi_from {A B : Type} (f : A -> nat -> B) (a : list A) (i k : nat) :
  nth_error (Js.mapi_from f i a) k = option_map (fun x => f x (i + k)%nat) (nth_error a k).
Proof.
  revert i k. induction a as [|x rest IH]; intros i k; destruct k as [|k]; simpl; try reflexivity.
  - now rewrite Nat.add_0_r.
  - rewrite IH. now rewrite Nat.add_succ_r.
Qed.

Lemma nth_error_mapi {A B : Type} (f : A -> nat -> B) (a : list A) (k : nat) :
  nth_error (Js.mapi f a) k = option_map (fun x => f x k) (nth_error a k).
Proof. unfold Js.mapi. now rewrite nth_error_mapi_from. Qed.

Lemma get_Some {A : Type} (a : list A) (i : Z) :
  0 <= i < Js.length a -> exists x, Js.get a i = Some x.
Proof.
  unfold Js.get, Js.length. intros [Hlo Hhi].
  destruct (Z.ltb_spec i 0) as [Hneg|_]; [lia|].
  destruct (nth_error a (Z.to_nat i)) as [x|] eqn:E; [now exists x|].
  apply nth_error_None in E. lia.
Qed.

Lemma get_last (a : list string) :
  Js.get a (Js.length a - 1) = match rev a with [] => None | x :: _ => Some x end.
Proof.
  unfold Js.get, Js.length. destruct a as [|y rest] using rev_ind; [reflexivity|].
  rewrite rev_app_distr, length_app. simpl.
  destruct (Z.ltb_spec (Z.of_nat (List.length rest + 1) - 1) 0) as [Hneg|_]; [lia|].
  replace (Z.to_nat (Z.of_nat (List.length rest + 1) - 1)) with (List.length rest) by lia.
  rewrite nth_error_app2 by lia. now rewrite Nat.sub_diag.
Qed.

Lemma get_In {A : Type} (a : list A) (i : Z) (x : A) :
  Js.get a i = Some x -> In x a.
Proof.
  unfold Js.get. destruct (i <? 0); [discriminate|]. apply nth_error_In.
Qed.

(** ** Facts about the derived values *)

Lemma addGuessedLetter_currentWord (letter : string) (s : State) :
  currentWord (addGuessedLetter letter s) = currentWord s.
Proof. reflexivity. Qed.

Lemma addGuessedLetter_known (letter : string) (s : State) :
  In letter (guessedLetters s) -> addGuessedLetter letter s = s.
Proof.
  intros Hin. apply arr_includes_In in Hin. destruct s as [w g].
  unfold addGuessedLetter, setGuessedLetters. simpl in *. now rewrite Hin.
Qed.

Lemma addGuessedLetter_new (letter : string) (s : State) :
  ~ In letter (guessedLetters s) ->
  addGuessedLetter letter s =
  {| currentWord := currentWord s; guessedLetters := (guessedLetters s ++ [letter])%list |}.
Proof.
  intros Hin. apply arr_includes_not_In in Hin.
  unfold addGuessedLetter, setGuessedLetters. now rewrite Hin.
Qed.

Lemma addGuessedLetter_In (letter x : string) (s : State) :
  In x (guessedLetters (addGuessedLetter letter s)) <-> In x (guessedLetters s) \/ x = letter.
Proof.
  destruct (in_dec string_dec letter (guessedLetters s)) as [Hin|Hnin].
  - rewrite addGuessedLetter_known by assumption. split; [tauto | intros [H| ->]; assumption].
  - rewrite addGuessedLetter_new by assumption. simpl. rewrite in_app_iff. simpl.
    intuition congruence.
Qed.

Lemma addGuessedLetter_NoDup (letter : string) (s : State) :
  NoDup (guessedLetters s) -> NoDup (guessedLetters (addGuessedLetter letter s)).
Proof.
  intros Hnd. destruct (in_dec string_dec letter (guessedLetters s)) as [Hin|Hnin].
  - now rewrite addGuessedLetter_known.
  - rewrite addGuessedLetter_new by assumption. simpl.
    apply NoDup_rev in Hnd. rewrite <- (rev_involutive (_ ++ _)). apply NoDup_rev.
    rewrite rev_app_distr. simpl. constructor; [now rewrite <- in_rev | assumption].
Qed.

Lemma guesses_currentWord (letters : list string) (s : State) :
  currentWord (guesses letters s) = currentWord s.
Proof.
  revert s. induction letters as [|l rest IH]; intros s; [reflexivity|].
  unfold guesses in *. simpl. now rewrite IH.
Qed.

Lemma guesses_In (letters : list string) (x : string) (s : State) :
  In x (guessedLetters (guesses letters s)) <-> In x (guessedLetters s) \/ In x letters.
Proof.
  revert s. induction letters as [|l rest IH]; intros s.
  - simpl. tauto.
  - unfold guesses in *. simpl. rewrite IH, addGuessedLetter_In. intuition congruence.
Qed.

Lemma guesses_NoDup (letters : list string) (s : State) :
  NoDup (guessedLetters s) -> NoDup (guessedLetters (guesses letters s)).
Proof.
  revert s. induction letters as [|l rest IH]; intros s Hnd; [assumption|].
  unfold guesses in *. simpl. apply IH. now apply addGuessedLetter_NoDup.
Qed.

Lemma filter_Permutation {A : Type} (f : A -> bool) (l1 l2 : list A) :
  Permutation l1 l2 -> Permutation (filter f l1) (filter f l2).
Proof.
  induction 1 as [|x l1 l2 _ IH|x y l|l1 l2 l3 _ IH1 _ IH2]; simpl.
  - constructor.
  - destruct (f x); [now constructor | assumption].
  - destruct (f x), (f y); try reflexivity. constructor.
  - now transitivity (filter f l2).
Qed.

Section Derived.

Variable languages : list Language.

Lemma isGameWon_iff (s : State) :
  isGameWon s = true <->
  forall letter, In letter (Js.split (currentWord s)) -> In letter (guessedLetters s).
Proof.
  unfold isGameWon. rewrite forallb_forall. split; intros H letter Hin.
  - apply arr_includes_In. now apply H.
  - apply arr_includes_In. now apply H.
Qed.

Lemma wrongGuessCount_nonneg (s : State) : 0 <= wrongGuessCount s.
Proof. unfold wrongGuessCount, Js.length. lia. Qed.

Lemma isGameLost_iff (s : State) :
  isGameLost languages s = true <-> wrongGuessCount s >= guessesLeft languages.
Proof. unfold isGameLost. rewrite Z.geb_le. lia. Qed.

Lemma isGameLost_false_iff (s : State) :
  isGameLost languages s = false <-> wrongGuessCount s < guessesLeft languages.
Proof.
  pose proof (isGameLost_iff s) as H. destruct (isGameLost languages s).
  - split; [discriminate | intros Hlt; apply proj1 in H; specialize (H eq_refl); lia].
  - split; [intros _ | reflexivity].
    destruct (Z_lt_ge_dec (wrongGuessCount s) (guessesLeft languages)) as [Hlt|Hge];
      [assumption | apply H in Hge; discriminate].
Qed.

Lemma wrongGuessCount_same_word (s t : State) :
  currentWord s = currentWord t ->
  Permutation (guessedLetters s) (guessedLetters t) ->
  wrongGuessCount s = wrongGuessCount t.
Proof.
  intros Hw Hp. unfold wrongGuessCount, Js.length. f_equal.
  apply Permutation_length.
  replace (isWrong t) with (isWrong s) by (unfold isWrong; now rewrite Hw).
  now apply filter_Permutation.
Qed.

Lemma wrongGuessCount_add (letter : string) (s : State) :
  wrongGuessCount (addGuessedLetter letter s) =
  wrongGuessCount s +
  (if Js.arr_includes (guessedLetters s) letter then 0
   else if Js.includes (currentWord s) letter then 0 else 1).
Proof.
  destruct (Js.arr_includes (guessedLetters s) letter) eqn:E.
  - apply arr_includes_In in E. rewrite addGuessedLetter_known by assumption. lia.
  - apply arr_includes_not_In in E. rewrite addGuessedLetter_new by assumption.
    unfold wrongGuessCount, Js.length, isWrong. simpl.
    rewrite filter_app, length_app. simpl.
    destruct (Js.includes (currentWord s) letter); simpl; lia.
Qed.

Lemma isGameWon_add (letter : string) (s : State) :
  isGameWon s = true -> isGameWon (addGuessedLetter letter s) = true.
Proof.
  rewrite !isGameWon_iff. intros H x Hx. apply addGuessedLetter_In. left. now apply H.
Qed.

Lemma isGameLost_add (letter : string) (s : State) :
  isGameLost languages s = true -> isGameLost languages (addGuessedLetter letter s) = true.
Proof.
  rewrite !isGameLost_iff, wrongGuessCount_add.
  destruct (Js.arr_includes _ _); [lia|]. destruct (Js.includes _ _); lia.
Qed.

(** A wrong letter completes no word. *)
Lemma isGameWon_add_wrong (letter : string) (s : State) :
  Js.includes (currentWord s) letter = false ->
  isGameWon (addGuessedLetter letter s) = true -> isGameWon s = true.
Proof.
  rewrite !isGameWon_iff. intros Hwrong H x Hx.
  specialize (H x Hx). apply addGuessedLetter_In in H. destruct H as [H| ->]; [assumption|].
  apply split_included in Hx. congruence.
Qed.

(** One guess in a round that is not over cannot both win and lose it. *)
Lemma addGuessedLetter_exclusive (letter : string) (s : State) :
  isGameOver languages s = false ->
  ~ (isGameWon (addGuessedLetter letter s) = true /\
     isGameLost languages (addGuessedLetter letter s) = true).
Proof.
  unfold isGameOver. rewrite orb_false_iff. intros [Hwon Hlost] [Hwon' Hlost'].
  destruct (Js.includes (currentWord s) letter) eqn:E.
  - apply isGameLost_iff in Hlost'. rewrite wrongGuessCount_add, E in Hlost'.
    apply isGameLost_false_iff in Hlost.
    destruct (Js.arr_includes _ _); lia.
  - apply isGameWon_add_wrong in Hwon'; congruence.
Qed.

End Derived.

(** ** Facts about the keyboard *)

Section Keyboard.

Variable languages : list Language.

Lemma keyboard_button (s : State) (b : Button) :
  In b (keyboardElements languages s) ->
  In (btn_key b) (Js.split alphabet) /\
  btn_onClick b = btn_key b /\
  btn_disabled b = isGameOver languages s.
Proof.
  unfold keyboardElements. rewrite in_map_iff. intros [letter [<- Hin]]. simpl. auto.
Qed.

Lemma clickLetter_cases (letter : string) (s : State) :
  clickLetter languages letter s = s \/
  (isGameOver languages s = false /\
   clickLetter languages letter s = addGuessedLetter letter s).
Proof.
  unfold clickLetter.
  destruct (find _ (keyboardElements languages s)) as [b|] eqn:E; [|now left].
  apply find_some in E. destruct E as [Hin Hkey]. apply String.eqb_eq in Hkey.
  apply keyboard_button in Hin. destruct Hin as [_ [Hclick Hdis]].
  unfold clickButton. rewrite Hdis, Hclick, Hkey.
  destruct (isGameOver languages s); [now left | now right].
Qed.

Lemma clickLetter_over (letter : string) (s : State) :
  isGameOver languages s = true -> clickLetter languages letter s = s.
Proof.
  intros Hover. destruct (clickLetter_cases letter s) as [H|[H _]]; congruence.
Qed.

Lemma find_key (mk : string -> Button) (letter : string) (keys : list string) :
  (forall k, btn_key (mk k) = k) ->
  In letter keys ->
  find (fun b => String.eqb (btn_key b) letter) (map mk keys) = Some (mk letter).
Proof.
  intros Hmk. induction keys as [|k rest IH]; intros Hin; [destruct Hin|].
  simpl. rewrite Hmk. destruct (String.eqb_spec k letter) as [->|Hne]; [reflexivity|].
  destruct Hin as [Hin|Hin]; [congruence | now apply IH].
Qed.

Lemma clickLetter_playing (letter : string) (s : State) :
  In letter (Js.split alphabet) ->
  isGameOver languages s = false ->
  clickLetter languages letter s = addGuessedLetter letter s.
Proof.
  intros Hin Hplaying. unfold clickLetter, keyboardElements.
  rewrite find_key by (auto; intros; reflexivity).
  unfold clickButton. simpl. now rewrite Hplaying.
Qed.

Lemma lowercase_on_keyboard (letter : string) :
  spec_isLowercaseLetter letter = true <-> In letter (Js.split alphabet).
Proof.
  split.
  - destruct letter as [|c [|d rest]]; try discriminate.
    destruct c as [[] [] [] [] [] [] [] []]; vm_compute; intros H;
      try discriminate H; repeat (first [left; reflexivity | right]).
  - intros H. vm_compute in H.
    repeat (destruct H as [<-|H]; [reflexivity|]). destruct H.
Qed.

(** Inside a round that is not both won and lost, a step of the component
    keeps it so, unless it starts a round that is over at once. *)
Lemma step_exclusive (s : State) (c : Command) :
  (Js.length languages >= 2 \/ Forall (fun p => p <> "") (picks [c])) ->
  ~ (isGameWon s = true /\ isGameLost languages s = true) ->
  ~ (isGameWon (step languages s c) = true /\
     isGameLost languages (step languages s c) = true).
Proof.
  intros Hcfg Hinv. destruct c as [picked|letter]; simpl.
  - intros [Hwon Hlost]. destruct Hcfg as [Hlen|Hpick].
    + apply isGameLost_iff in Hlost. unfold guessesLeft in Hlost.
      change (wrongGuessCount (newGame picked s)) with 0 in Hlost. lia.
    + inversion Hpick as [|p ps Hne _]; subst. apply Hne.
      destruct picked as [|c rest]; [reflexivity | discriminate].
  - destruct (clickLetter_cases letter s) as [->|[Hplaying ->]]; [assumption|].
    now apply addGuessedLetter_exclusive.
Qed.

Lemma run_exclusive (cs : list Command) (s : State) :
  (Js.length languages >= 2 \/ Forall (fun p => p <> "") (picks cs)) ->
  ~ (isGameWon s = true /\ isGameLost languages s = true) ->
  ~ (isGameWon (run languages cs s) = true /\
     isGameLost languages (run languages cs s) = true).
Proof.
  revert s. induction cs as [|c rest IH]; intros s Hcfg Hinv; [assumption|].
  change (run languages (c :: rest) s) with (run languages rest (step languages s c)).
  apply IH.
  - destruct Hcfg as [Hlen|Hpick]; [now left | right].
    destruct c; simpl in Hpick; [now inversion Hpick | assumption].
  - apply step_exclusive; [|assumption].
    destruct Hcfg as [Hlen|Hpick]; [now left | right].
    destruct c; simpl in *; [inversion Hpick; subst; now constructor | constructor].
Qed.

End Keyboard.

(** ** Scenarios *)

Example cat_won_after_c_a_t :
  let s := guesses ["c"; "a"; "t"] (initState "cat") in
  phase ladder8 s = Won /\ wrongGuessCount s = 0.
Proof. split; reflexivity. Qed.

Example farewell_after_x :
  let s := guesses ["x"] (initState "cat") in
  farewellEligible ladder8 s = true /\
  gameStatus ladder8 sampleFarewell s = Js.Normal (FarewellMessage "Farewell, tier0").
Proof. split; reflexivity. Qed.

(** ** Win and loss *)

(** The guard against guesses after the end of the game is the keyboard's,
    not the handler's: were [addGuessedLetter] called on its own after a
    win, as the component never does, "cat" with eight tiers and the
    letters c, a, t and then seven letters that are not in the word would
    leave [isGameWon] and [isGameLost] both true. *)
Remark direct_calls_reach_won_and_lost :
  let s := calls (map CallAddGuessedLetter (["c"; "a"; "t"] ++ sevenWrong)%list)
                 (initState "cat") in
  s = {| currentWord := "cat";
         guessedLetters := ["c"; "a"; "t"; "x"; "y"; "z"; "q"; "w"; "e"; "r"] |} /\
  isGameWon s = true /\ isGameLost ladder8 s = true.
Proof. repeat split. Qed.

(** C1: every state the component reaches -- from a fresh round, by any
    sequence of new games and of guesses, which reach [addGuessedLetter]
    only through the keys of the keyboard, disabled once the game is over
    -- is never won and lost at once. The ladder has at least two tiers or
    no picked word is empty: the contracts of [./languages] and of
    [getRandomWord], which are not part of [App.jsx]. *)
Theorem component_never_won_and_lost
    (languages : list Language) (picked : string) (cs : list Command) :
  Js.length languages >= 2 \/ Forall (fun p => p <> "") (picked :: picks cs) ->
  ~ (isGameWon (run languages cs (initState picked)) = true /\
     isGameLost languages (run languages cs (initState picked)) = true).
Proof.
  intros Hcfg. apply run_exclusive.
  - destruct Hcfg as [Hlen|Hpick]; [now left | right; now inversion Hpick].
  - intros [Hwon Hlost]. destruct Hcfg as [Hlen|Hpick].
    + apply isGameLost_iff in Hlost. unfold guessesLeft in Hlost.
      change (wrongGuessCount (initState picked)) with 0 in Hlost. lia.
    + inversion Hpick as [|p ps Hne _]; subst. apply Hne.
      destruct picked as [|c rest]; [reflexivity | discriminate].
Qed.

Lemma component_never_won_and_lost_witness :
  let cs := (map GuessLetter (["c"; "a"; "t"] ++ sevenWrong) ++
             [NewGame "dog"; GuessLetter "x"])%list in
  (Js.length ladder8 >= 2 \/ Forall (fun p => p <> "") ("cat" :: picks cs)) /\
  run ladder8 cs (initState "cat") = {| currentWord := "dog"; guessedLetters := ["x"] |} /\
  ~ (isGameWon (run ladder8 cs (initState "cat")) = true /\
     isGameLost ladder8 (run ladder8 cs (initState "cat")) = true).
Proof.
  assert (Hcfg : Js.length ladder8 >= 2) by (vm_compute; discriminate).
  split; [left; exact Hcfg|]. split; [reflexivity|].
  apply (component_never_won_and_lost ladder8 "cat"). left; exact Hcfg.
Defined.

(** C2, as stated, fails: in a won round [addGuessedLetter] still records a
    new letter. *)
Lemma addGuessedLetter_changes_won_round :
  let s := guesses ["c"; "a"; "t"] (initState "cat") in
  isGameOver ladder8 s = true /\
  addGuessedLetter "x" s =
    {| currentWord := "cat"; guessedLetters := ["c"; "a"; "t"; "x"] |} /\
  addGuessedLetter "x" s <> s.
Proof. repeat split. discriminate. Qed.

(** C2, amended: once the game is over every key of the keyboard is
    disabled, so a guess made through the component leaves the whole state
    unchanged; [addGuessedLetter] itself has no such guard: called directly
    it keeps the word, appends the letter unless it was guessed before, and
    the game stays over. *)
Theorem game_over_guard_is_the_keyboard
    (languages : list Language) (letter : string) (s : State) :
  isGameOver languages s = true ->
  clickLetter languages letter s = s /\
  Forall (fun b => btn_disabled b = true) (keyboardElements languages s) /\
  currentWord (addGuessedLetter letter s) = currentWord s /\
  guessedLetters (addGuessedLetter letter s) =
    (if Js.arr_includes (guessedLetters s) letter then guessedLetters s
     else guessedLetters s ++ [letter])%list /\
  isGameOver languages (addGuessedLetter letter s) = true.
Proof.
  intros Hover. repeat split.
  - now apply clickLetter_over.
  - apply Forall_forall. intros b Hb. apply keyboard_button in Hb.
    destruct Hb as [_ [_ Hdis]]. congruence.
  - unfold isGameOver in *. apply orb_true_iff in Hover. apply orb_true_iff.
    destruct Hover as [Hwon|Hlost];
      [left; now apply isGameWon_add | right; now apply isGameLost_add].
Qed.

Lemma game_over_guard_is_the_keyboard_witness :
  let s := guesses ["c"; "a"; "t"] (initState "cat") in
  isGameOver ladder8 s = true /\
  clickLetter ladder8 "x" s = s /\
  guessedLetters (addGuessedLetter "x" s) = ["c"; "a"; "t"; "x"].
Proof.
  split; [reflexivity|].
  destruct (game_over_guard_is_the_keyboard ladder8 "x"
              (guesses ["c"; "a"; "t"] (initState "cat")) eq_refl)
    as [Hclick [_ [_ [Hguessed _]]]].
  split; [exact Hclick | exact Hguessed].
Defined.

(** ** Input *)

(** C3, as stated, fails: [addGuessedLetter] raises nothing on a guess that
    is not a single lowercase letter; it records it. *)
Lemma addGuessedLetter_takes_any_string :
  spec_isLowercaseLetter "ab" = false /\
  addGuessedLetter_completion "ab" (initState "cat") =
    Js.Normal {| currentWord := "cat"; guessedLetters := ["ab"] |} /\
  addGuessedLetter_completion "ab" (initState "cat") <> Js.Throw "InvalidInputError".
Proof. repeat split. discriminate. Qed.

(** C3, amended: [addGuessedLetter] never raises, whatever string it is
    given, a single lowercase letter or not: it completes normally, keeps
    the word, and appends the argument unless it was guessed before. Only
    the keyboard restricts the input: each of its keys passes a single
    lowercase letter. *)
Theorem addGuessedLetter_never_raises
    (languages : list Language) (letter : string) (s : State) :
  (exists s', addGuessedLetter_completion letter s = Js.Normal s' /\
              currentWord s' = currentWord s /\
              guessedLetters s' =
                (if Js.arr_includes (guessedLetters s) letter then guessedLetters s
                 else guessedLetters s ++ [letter])%list) /\
  Forall (fun b => spec_isLowercaseLetter (btn_onClick b) = true)
         (keyboardElements languages s).
Proof.
  split.
  - exists (addGuessedLetter letter s). repeat split.
  - apply Forall_forall. intros b Hb. apply keyboard_button in Hb.
    destruct Hb as [Hkey [Hclick _]]. rewrite Hclick. now apply lowercase_on_keyboard.
Qed.

(** ** Winning and losing *)

(** C4: whatever the word, the state and the letters guessed from it, once
    every letter of the word is among the guessed letters the game is won,
    however many wrong letters were guessed before; while the wrong guesses
    are below the allowance it is not lost, the phase is Won and the status
    shown is the winning one. *)
Theorem won_once_every_letter_is_guessed
    (languages : list Language) (getFarewellText : string -> string)
    (s0 : State) (letters : list string) :
  (forall letter, In letter (Js.split (currentWord s0)) ->
                  In letter (guessedLetters s0) \/ In letter letters) ->
  wrongGuessCount (guesses letters s0) < guessesLeft languages ->
  isGameWon (guesses letters s0) = true /\
  isGameLost languages (guesses letters s0) = false /\
  phase languages (guesses letters s0) = Won /\
  gameStatus languages getFarewellText (guesses letters s0) = Js.Normal YouWin.
Proof.
  intros Hall Hfew.
  assert (Hwon : isGameWon (guesses letters s0) = true).
  { apply isGameWon_iff. intros letter Hin. apply guesses_In.
    rewrite guesses_currentWord in Hin. now apply Hall. }
  assert (Hlost : isGameLost languages (guesses letters s0) = false)
    by now apply isGameLost_false_iff.
  repeat split; try assumption.
  - unfold phase. now rewrite Hwon.
  - unfold gameStatus, isGameOver. now rewrite Hwon.
Qed.

Lemma won_once_every_letter_is_guessed_witness :
  let s := guesses ["x"; "t"; "y"; "a"; "z"; "c"] (initState "cat") in
  wrongGuessCount s = 3 /\ guessesLeft ladder8 = 7 /\
  isGameWon s = true /\ phase ladder8 s = Won.
Proof.
  split; [reflexivity|]. split; [reflexivity|].
  destruct (won_once_every_letter_is_guessed ladder8 sampleFarewell
              (initState "cat") ["x"; "t"; "y"; "a"; "z"; "c"])
    as [Hwon [_ [Hphase _]]].
  - intros letter Hin. right. vm_compute in Hin.
    destruct Hin as [<-|[<-|[<-|[]]]]; vm_compute; tauto.
  - reflexivity.
  - split; [exact Hwon | exact Hphase].
Defined.

(** C5: the allowance is the number of tiers minus one, and the game is lost
    exactly when the wrong guesses reach it. On "cat" with any eight tiers,
    guessing x, y, z, q, w, e, r leaves the round in play after each of the
    first six, loses it with the seventh, and then marks tiers 0 to 6 lost
    and tier 7 not; playing the same letters on the keyboard gives the same
    state. *)
Theorem lost_when_allowance_is_used_up :
  (forall languages : list Language,
      guessesLeft languages = Js.length languages - 1 /\
      forall s, isGameLost languages s = true <->
                wrongGuessCount s >= Js.length languages - 1) /\
  (forall t0 t1 t2 t3 t4 t5 t6 t7 : Language,
      let ladder := [t0; t1; t2; t3; t4; t5; t6; t7] in
      let after k := guesses (firstn k sevenWrong) (initState "cat") in
      guessesLeft ladder = 7 /\
      map (fun k => phase ladder (after k)) (seq 0 8) =
        [Playing; Playing; Playing; Playing; Playing; Playing; Playing; Lost] /\
      map (fun k => wrongGuessCount (after k)) (seq 0 8) = [0; 1; 2; 3; 4; 5; 6; 7] /\
      map (isLanguageLost (after 7%nat)) (seq 0 8) =
        [true; true; true; true; true; true; true; false] /\
      map chip_className (languageElements ladder (after 7%nat)) =
        ["chip lost"; "chip lost"; "chip lost"; "chip lost"; "chip lost"; "chip lost";
         "chip lost"; "chip "] /\
      run ladder (map GuessLetter sevenWrong) (initState "cat") = after 7%nat).
Proof.
  split.
  - intros languages. split; [reflexivity|]. intros s. apply isGameLost_iff.
  - intros t0 t1 t2 t3 t4 t5 t6 t7. repeat split.
Qed.

(** ** The ladder *)

Lemma languageElements_same_count (languages : list Language) (s t : State) :
  wrongGuessCount s = wrongGuessCount t ->
  languageElements languages s = languageElements languages t.
Proof.
  intros Hcount. unfold languageElements, isLanguageLost. now rewrite Hcount.
Qed.

(** C6: the chip of the tier at index [i] is marked lost exactly when [i] is
    below the number of wrong guesses. The marking depends on the guesses
    only through that number: it is the same for the same letters guessed
    in any order, a guess that is in the word or was made before leaves it
    as it is, and a new wrong guess moves it by one tier. *)
Theorem chips_lost_below_wrongGuessCount (languages : list Language) (s : State) :
  List.length (languageElements languages s) = List.length languages /\
  (forall i lang, nth_error languages i = Some lang ->
     exists chip, nth_error (languageElements languages s) i = Some chip /\
                  chip_text chip = name lang /\
                  (chip_className chip = "chip lost" <-> Z.of_nat i < wrongGuessCount s) /\
                  (chip_className chip = "chip " <-> wrongGuessCount s <= Z.of_nat i)) /\
  (forall t, currentWord t = currentWord s ->
             Permutation (guessedLetters s) (guessedLetters t) ->
             languageElements languages t = languageElements languages s) /\
  (forall letters1 letters2,
     Permutation letters1 letters2 ->
     languageElements languages (guesses letters1 (initState (currentWord s))) =
     languageElements languages (guesses letters2 (initState (currentWord s)))) /\
  (forall letter,
     wrongGuessCount (addGuessedLetter letter s) =
     wrongGuessCount s +
     (if Js.arr_includes (guessedLetters s) letter then 0
      else if Js.includes (currentWord s) letter then 0 else 1)).
Proof.
  split; [apply length_mapi_from|]. split; [|split; [|split]].
  - intros i lang Hi. unfold languageElements. rewrite nth_error_mapi, Hi. simpl.
    eexists. split; [reflexivity|]. simpl. split; [reflexivity|].
    unfold isLanguageLost.
    destruct (Z.ltb_spec (Z.of_nat i) (wrongGuessCount s)) as [Hlt|Hge]; simpl;
      split; split; intros H; try reflexivity; try discriminate; lia.
  - intros t Hword Hperm. apply languageElements_same_count. symmetry.
    now apply wrongGuessCount_same_word.
  - intros letters1 letters2 Hperm. apply languageElements_same_count.
    apply wrongGuessCount_same_word; [now rewrite !guesses_currentWord|].
    apply NoDup_Permutation; try (apply guesses_NoDup; constructor).
    intros x. rewrite !guesses_In. split; intros [H|H]; auto; right.
    + now apply (Permutation_in _ Hperm).
    + now apply (Permutation_in _ (Permutation_sym Hperm)).
  - intros letter. apply wrongGuessCount_add.
Qed.

(** ** The farewell message *)

Lemma lastGuessedLetter_spec (s : State) : lastGuessedLetter s = spec_lastGuess s.
Proof. unfold lastGuessedLetter, spec_lastGuess. apply get_last. Qed.

Lemma isLastGuessCorrect_spec (s : State) :
  isLastGuessCorrect s = spec_lastGuessWasWrong s.
Proof.
  unfold isLastGuessCorrect, spec_lastGuessWasWrong. rewrite lastGuessedLetter_spec.
  destruct (spec_lastGuess s) as [[|c rest]|]; simpl; try reflexivity.
  now rewrite includes_empty.
Qed.

Lemma wrongGuessCount_last (s : State) :
  spec_lastGuessWasWrong s = true -> wrongGuessCount s >= 1.
Proof.
  unfold spec_lastGuessWasWrong. rewrite <- lastGuessedLetter_spec.
  destruct (lastGuessedLetter s) as [letter|] eqn:E; [|discriminate].
  intros Hwrong. apply get_In in E.
  assert (Hin : In letter (filter (isWrong s) (guessedLetters s)))
    by (apply filter_In; split; assumption).
  unfold wrongGuessCount, Js.length.
  destruct (filter (isWrong s) (guessedLetters s)); [destruct Hin | simpl; lia].
Qed.

(** C7: the farewell is shown exactly when the game is not over and the last
    guess was wrong. Whenever it is shown there is at least one wrong guess,
    the index [wrongGuessCount - 1] lies inside the ladder, and the message
    is that of the tier at that index; so [gameStatus] never fails on the
    lookup. *)
Theorem farewell_tier_is_in_the_ladder
    (languages : list Language) (getFarewellText : string -> string) (s : State) :
  (farewellEligible languages s = true <->
   isGameOver languages s = false /\ spec_lastGuessWasWrong s = true) /\
  (farewellEligible languages s = true ->
   wrongGuessCount s >= 1 /\
   0 <= wrongGuessCount s - 1 < Js.length languages /\
   exists tier,
     Js.get languages (wrongGuessCount s - 1) = Some tier /\
     nth_error languages (Z.to_nat (wrongGuessCount s - 1)) = Some tier /\
     gameStatus languages getFarewellText s =
       Js.Normal (FarewellMessage (getFarewellText (name tier)))) /\
  (exists message, gameStatus languages getFarewellText s = Js.Normal message).
Proof.
  assert (Hiff : farewellEligible languages s = true <->
                 isGameOver languages s = false /\ spec_lastGuessWasWrong s = true).
  { unfold farewellEligible. rewrite andb_true_iff, negb_true_iff.
    now rewrite isLastGuessCorrect_spec. }
  assert (Hbounds : farewellEligible languages s = true ->
                    wrongGuessCount s >= 1 /\
                    0 <= wrongGuessCount s - 1 < Js.length languages).
  { intros He. apply Hiff in He. destruct He as [Hover Hwrong].
    apply wrongGuessCount_last in Hwrong.
    unfold isGameOver in Hover. apply orb_false_iff in Hover. destruct Hover as [_ Hlost].
    apply isGameLost_false_iff in Hlost. unfold guessesLeft in Hlost. lia. }
  split; [exact Hiff|]. split.
  - intros He. destruct (Hbounds He) as [Hone Hin]. split; [exact Hone|]. split; [exact Hin|].
    destruct (get_Some languages _ Hin) as [tier Htier]. exists tier.
    split; [exact Htier|]. split.
    + unfold Js.get in Htier.
      destruct (wrongGuessCount s - 1 <? 0); [discriminate | exact Htier].
    + unfold gameStatus. unfold farewellEligible in He. now rewrite He, Htier.
  - unfold gameStatus. fold (farewellEligible languages s).
    destruct (farewellEligible languages s) eqn:He.
    + destruct (Hbounds eq_refl) as [_ Hin].
      destruct (get_Some languages _ Hin) as [tier Htier]. rewrite Htier. eauto.
    + destruct (isGameWon s); [eauto|]. destruct (isGameLost languages s); eauto.
Qed.

Lemma farewell_tier_is_in_the_ladder_witness :
  let s := guesses ["a"; "x"; "t"; "y"] (initState "cat") in
  farewellEligible ladder8 s = true /\
  wrongGuessCount s = 2 /\
  exists tier, nth_error ladder8 1 = Some tier /\
               gameStatus ladder8 sampleFarewell s =
                 Js.Normal (FarewellMessage (sampleFarewell (name tier))).
Proof.
  split; [reflexivity|]. split; [reflexivity|].
  destruct (farewell_tier_is_in_the_ladder ladder8 sampleFarewell
              (guesses ["a"; "x"; "t"; "y"] (initState "cat")))
    as [_ [Htier _]].
  destruct (Htier eq_refl) as [_ [_ [tier [_ [Hnth Hstatus]]]]].
  exists tier. split; [exact Hnth | exact Hstatus].
Defined.

(** ** Guessing again, and starting again *)

(** C8: guessing a letter that is already among the guessed letters changes
    nothing: the call completes normally with the very same state, so the
    number of wrong guesses, the phase and the displayed word are the same;
    the same holds for a click on its key. *)
Theorem guessing_again_changes_nothing
    (languages : list Language) (letter : string) (s : State) :
  In letter (guessedLetters s) ->
  addGuessedLetter_completion letter s = Js.Normal s /\
  addGuessedLetter letter s = s /\
  clickLetter languages letter s = s /\
  wrongGuessCount (addGuessedLetter letter s) = wrongGuessCount s /\
  phase languages (addGuessedLetter letter s) = phase languages s /\
  letterElements languages (addGuessedLetter letter s) = letterElements languages s.
Proof.
  intros Hin. pose proof (addGuessedLetter_known letter s Hin) as Hsame.
  unfold addGuessedLetter_completion. rewrite Hsame. repeat split.
  destruct (clickLetter_cases languages letter s) as [H|[_ H]]; congruence.
Qed.

Lemma guessing_again_changes_nothing_witness :
  let s := guesses ["c"; "x"] (initState "cat") in
  In "x" (guessedLetters s) /\ In "c" (guessedLetters s) /\
  addGuessedLetter "x" s = s /\ addGuessedLetter "c" s = s.
Proof.
  assert (Hx : In "x" (guessedLetters (guesses ["c"; "x"] (initState "cat"))))
    by (right; left; reflexivity).
  assert (Hc : In "c" (guessedLetters (guesses ["c"; "x"] (initState "cat"))))
    by (left; reflexivity).
  split; [exact Hx|]. split; [exact Hc|]. split.
  - exact (proj1 (proj2 (guessing_again_changes_nothing ladder8 "x" _ Hx))).
  - exact (proj1 (proj2 (guessing_again_changes_nothing ladder8 "c" _ Hc))).
Defined.

(** C9: whatever the state before it, [newGame] leaves the picked word
    together with an empty list of guesses -- the state of a fresh round,
    in whichever order its two setters run -- with no wrong guess; for a
    non-empty word and a ladder of at least two tiers the phase is
    Playing. *)
Theorem newGame_starts_a_fresh_round
    (languages : list Language) (picked : string) (s : State) :
  picked <> "" ->
  Js.length languages >= 2 ->
  newGame picked s = initState picked /\
  setCurrentWord picked (setGuessedLetters (fun _ => []) s) = newGame picked s /\
  currentWord (newGame picked s) = picked /\
  guessedLetters (newGame picked s) = [] /\
  wrongGuessCount (newGame picked s) = 0 /\
  isGameWon (newGame picked s) = false /\
  isGameLost languages (newGame picked s) = false /\
  phase languages (newGame picked s) = Playing.
Proof.
  intros Hword Hladder.
  assert (Hwon : isGameWon (newGame picked s) = false)
    by (destruct picked as [|c rest]; [congruence | reflexivity]).
  assert (Hlost : isGameLost languages (newGame picked s) = false).
  { apply isGameLost_false_iff. unfold guessesLeft.
    change (wrongGuessCount (newGame picked s)) with 0. lia. }
  repeat split; try assumption.
  unfold phase. now rewrite Hwon, Hlost.
Qed.

Lemma newGame_starts_a_fresh_round_witness :
  let lost := guesses sevenWrong (initState "cat") in
  phase ladder8 lost = Lost /\
  newGame "dog" lost = {| currentWord := "dog"; guessedLetters := [] |} /\
  phase ladder8 (newGame "dog" lost) = Playing.
Proof.
  split; [reflexivity|].
  assert (Hword : "dog" <> "") by discriminate.
  assert (Hladder : Js.length ladder8 >= 2) by (vm_compute; discriminate).
  destruct (newGame_starts_a_fresh_round ladder8 "dog"
              (guesses sevenWrong (initState "cat")) Hword Hladder)
    as [Hfresh [_ [_ [_ [_ [_ [_ Hphase]]]]]]].
  split; [exact Hfresh | exact Hphase].
Defined.

(** C10: for the empty word [isGameWon] holds whatever was guessed, also
    with no guess at all: a round on the empty word starts in the Won phase
    and shows the winning status. [isGameWon] does not test that the word
    is non-empty. *)
Theorem empty_word_is_won_at_once
    (languages : list Language) (getFarewellText : string -> string) (s : State) :
  (forall guessed, isGameWon {| currentWord := ""; guessedLetters := guessed |} = true) /\
  isGameWon (initState "") = true /\
  isGameWon (newGame "" s) = true /\
  phase languages (initState "") = Won /\
  phase languages (newGame "" s) = Won /\
  gameStatus languages getFarewellText (newGame "" s) = Js.Normal YouWin.
Proof. repeat split. Qed.

(** * Further properties of the component *)

(** ** The list of guessed letters *)

Lemma guesses_app (letters1 letters2 : list string) (s : State) :
  guesses (letters1 ++ letters2) s = guesses letters2 (guesses letters1 s).
Proof. unfold guesses. apply fold_left_app. Qed.

Lemma guesses_distinct (letters : list string) (s : State) :
  NoDup (guessedLetters s ++ letters) ->
  guessedLetters (guesses letters s) = (guessedLetters s ++ letters)%list.
Proof.
  revert s. induction letters as [|l rest IH]; intros s Hnd.
  - simpl. now rewrite app_nil_r.
  - assert (Hnew : ~ In l (guessedLetters s)).
    { intros Hin. apply NoDup_remove_2 in Hnd. apply Hnd, in_or_app. now left. }
    change (guesses (l :: rest) s) with (guesses rest (addGuessedLetter l s)).
    rewrite IH; rewrite addGuessedLetter_new by assumption; simpl;
      rewrite <- app_assoc; [reflexivity | exact Hnd].
Qed.

(** X1: [addGuessedLetter] only ever appends. It keeps the word, leaves the
    old guesses as they are at the front of the list, adds at most its
    argument behind them and keeps the list free of repetitions; calling it
    twice with the same argument is the same as calling it once. *)
Theorem addGuessedLetter_only_appends (letter : string) (s : State) :
  currentWord (addGuessedLetter letter s) = currentWord s /\
  (exists added, guessedLetters (addGuessedLetter letter s) = (guessedLetters s ++ added)%list /\
                 (added = [] /\ In letter (guessedLetters s) \/
                  added = [letter] /\ ~ In letter (guessedLetters s))) /\
  In letter (guessedLetters (addGuessedLetter letter s)) /\
  addGuessedLetter letter (addGuessedLetter letter s) = addGuessedLetter letter s /\
  (NoDup (guessedLetters s) -> NoDup (guessedLetters (addGuessedLetter letter s))).
Proof.
  split; [reflexivity|]. split; [|split; [|split]].
  - destruct (in_dec string_dec letter (guessedLetters s)) as [Hin|Hnew].
    + exists []. rewrite addGuessedLetter_known, app_nil_r by assumption. auto.
    + exists [letter]. rewrite addGuessedLetter_new by assumption. auto.
  - apply addGuessedLetter_In. now right.
  - apply addGuessedLetter_known, addGuessedLetter_In. now right.
  - apply addGuessedLetter_NoDup.
Qed.

(** X2: a sequence of guesses in a fresh round records each letter once:
    the list has no repetition and holds exactly the letters guessed; when
    the letters guessed are all different, the list is that very sequence,
    in the order of the guesses. *)
Theorem guesses_record_each_letter_once (picked : string) (letters : list string) :
  NoDup (guessedLetters (guesses letters (initState picked))) /\
  (forall x, In x (guessedLetters (guesses letters (initState picked))) <-> In x letters) /\
  (NoDup letters -> guessedLetters (guesses letters (initState picked)) = letters) /\
  currentWord (guesses letters (initState picked)) = picked.
Proof.
  split; [apply guesses_NoDup; constructor|]. split; [|split].
  - intros x. rewrite guesses_In. simpl. tauto.
  - intros Hnd. now rewrite guesses_distinct.
  - apply guesses_currentWord.
Qed.

(** X3: [lastGuessedLetter] is [undefined] exactly when nothing was guessed,
    and otherwise one of the guessed letters. A new letter becomes the last
    guessed letter; guessing an old letter again leaves the last guessed
    letter as it was, so it need not be the letter that was just tried. *)
Theorem lastGuessedLetter_follows_new_letters (letter : string) (s : State) :
  (lastGuessedLetter s = None <-> guessedLetters s = []) /\
  (forall l, lastGuessedLetter s = Some l -> In l (guessedLetters s)) /\
  (~ In letter (guessedLetters s) ->
   lastGuessedLetter (addGuessedLetter letter s) = Some letter) /\
  (In letter (guessedLetters s) ->
   lastGuessedLetter (addGuessedLetter letter s) = lastGuessedLetter s).
Proof.
  split; [|split; [|split]].
  - unfold lastGuessedLetter. rewrite get_last.
    destruct (guessedLetters s) as [|x rest] using rev_ind; [simpl; tauto|].
    rewrite rev_app_distr. simpl. split; [discriminate|].
    intros H. now apply app_eq_nil in H.
  - intros l. apply get_In.
  - intros Hnew. rewrite addGuessedLetter_new by assumption.
    unfold lastGuessedLetter. rewrite get_last. simpl. now rewrite rev_app_distr.
  - intros Hin. now rewrite addGuessedLetter_known.
Qed.

Lemma lastGuessedLetter_follows_new_letters_witness :
  let s := guesses ["c"; "x"] (initState "cat") in
  lastGuessedLetter (addGuessedLetter "a" s) = Some "a" /\
  lastGuessedLetter (addGuessedLetter "c" s) = Some "x".
Proof.
  destruct (lastGuessedLetter_follows_new_letters "a" (guesses ["c"; "x"] (initState "cat")))
    as [_ [_ [Hnew _]]].
  destruct (lastGuessedLetter_follows_new_letters "c" (guesses ["c"; "x"] (initState "cat")))
    as [_ [_ [_ Hold]]].
  split.
  - apply Hnew. vm_compute. intros [H|[H|[]]]; discriminate.
  - rewrite Hold; [reflexivity | left; reflexivity].
Defined.

(** ** Guesses that are not a letter *)

Lemma split_single (s letter : string) :
  In letter (Js.split s) -> String.length letter = 1%nat.
Proof. rewrite In_split. now intros [c [-> _]]. Qed.

(** X4: a guess that is not a single code unit -- the empty string, or a
    string of several -- never helps to win: [isGameWon] is the same before
    and after it. The empty string is never a wrong guess either, since
    every word includes it: it leaves the count of wrong guesses and
    [isGameLost] as they are, and no farewell follows it when it is new. *)
Theorem only_single_letters_count_towards_a_win
    (languages : list Language) (letter : string) (s : State) :
  String.length letter <> 1%nat ->
  isGameWon (addGuessedLetter letter s) = isGameWon s /\
  wrongGuessCount (addGuessedLetter "" s) = wrongGuessCount s /\
  isGameLost languages (addGuessedLetter "" s) = isGameLost languages s /\
  (~ In "" (guessedLetters s) ->
   farewellEligible languages (addGuessedLetter "" s) = false).
Proof.
  intros Hlen. split; [|split; [|split]].
  - destruct (isGameWon s) eqn:Hwon; [now apply isGameWon_add|].
    destruct (isGameWon (addGuessedLetter letter s)) eqn:Hwon'; [|reflexivity].
    rewrite <- Hwon. symmetry. apply isGameWon_iff. intros x Hx.
    apply (proj1 (isGameWon_iff _)) with (letter := x) in Hwon'; [|exact Hx].
    apply addGuessedLetter_In in Hwon'. destruct Hwon' as [H| ->]; [assumption|].
    apply split_single in Hx. contradiction.
  - rewrite wrongGuessCount_add, includes_empty. destruct (Js.arr_includes _ _); lia.
  - unfold isGameLost. rewrite wrongGuessCount_add, includes_empty.
    destruct (Js.arr_includes _ _); now rewrite Z.add_0_r.
  - intros Hnew. unfold farewellEligible, isLastGuessCorrect.
    rewrite addGuessedLetter_new by assumption.
    unfold lastGuessedLetter. rewrite get_last. simpl. rewrite rev_app_distr. simpl.
    apply andb_false_r.
Qed.

Lemma only_single_letters_count_towards_a_win_witness :
  let s := guesses ["c"; "t"] (initState "cat") in
  Js.includes "cat" "at" = true /\
  isGameWon (addGuessedLetter "at" s) = false /\
  isGameWon (addGuessedLetter "a" s) = true.
Proof.
  split; [reflexivity|]. split; [|reflexivity].
  assert (Hlen : String.length "at" <> 1%nat) by discriminate.
  rewrite (proj1 (only_single_letters_count_towards_a_win ladder8 "at"
                    (guesses ["c"; "t"] (initState "cat")) Hlen)).
  reflexivity.
Defined.

(** ** What the component keeps true *)

Section Reached.

Variable languages : list Language.

Lemma run_app (cs1 cs2 : list Command) (s : State) :
  run languages (cs1 ++ cs2) s = run languages cs2 (run languages cs1 s).
Proof. unfold run. apply fold_left_app. Qed.

Lemma clickLetter_keyboard (letter : string) (s : State) :
  clickLetter languages letter s = s \/
  (isGameOver languages s = false /\ onKeyboard letter /\
   clickLetter languages letter s = addGuessedLetter letter s).
Proof.
  unfold clickLetter.
  destruct (find _ (keyboardElements languages s)) as [b|] eqn:E; [|now left].
  apply find_some in E. destruct E as [Hin Hkey]. apply String.eqb_eq in Hkey.
  apply keyboard_button in Hin. destruct Hin as [Hboard [Hclick Hdis]].
  unfold clickButton. rewrite Hdis, Hclick, Hkey. rewrite Hkey in Hboard.
  destruct (isGameOver languages s); [now left | right; auto].
Qed.

Lemma step_keeps (s : State) (c : Command) :
  NoDup (guessedLetters s) /\ Forall onKeyboard (guessedLetters s) /\
  wrongGuessCount s <= Z.max 0 (guessesLeft languages) ->
  NoDup (guessedLetters (step languages s c)) /\
  Forall onKeyboard (guessedLetters (step languages s c)) /\
  wrongGuessCount (step languages s c) <= Z.max 0 (guessesLeft languages).
Proof.
  intros [Hnd [Hkeys Hcount]]. destruct c as [picked|letter]; simpl.
  - split; [constructor|]. split; [constructor|].
    change (wrongGuessCount (newGame picked s)) with 0. lia.
  - destruct (clickLetter_keyboard letter s) as [->|[Hplaying [Hkey ->]]]; [auto|].
    split; [now apply addGuessedLetter_NoDup|]. split.
    + apply Forall_forall. intros x Hx. apply addGuessedLetter_In in Hx.
      destruct Hx as [Hx| ->]; [|assumption].
      now apply (proj1 (Forall_forall _ _) Hkeys).
    + unfold isGameOver in Hplaying. apply orb_false_iff in Hplaying.
      destruct Hplaying as [_ Hlost]. apply isGameLost_false_iff in Hlost.
      rewrite wrongGuessCount_add.
      destruct (Js.arr_includes _ _); [lia|]. destruct (Js.includes _ _); lia.
Qed.

Lemma run_keeps (cs : list Command) (s : State) :
  NoDup (guessedLetters s) /\ Forall onKeyboard (guessedLetters s) /\
  wrongGuessCount s <= Z.max 0 (guessesLeft languages) ->
  NoDup (guessedLetters (run languages cs s)) /\
  Forall onKeyboard (guessedLetters (run languages cs s)) /\
  wrongGuessCount (run languages cs s) <= Z.max 0 (guessesLeft languages).
Proof.
  revert s. induction cs as [|c rest IH]; intros s Hinv; [assumption|].
  change (run languages (c :: rest) s) with (run languages rest (step languages s c)).
  now apply IH, step_keeps.
Qed.

Lemma run_from_fresh (picked : string) (cs : list Command) :
  NoDup (guessedLetters (run languages cs (initState picked))) /\
  Forall onKeyboard (guessedLetters (run languages cs (initState picked))) /\
  wrongGuessCount (run languages cs (initState picked)) <= Z.max 0 (guessesLeft languages).
Proof.
  apply run_keeps. split; [constructor|]. split; [constructor|].
  change (wrongGuessCount (initState picked)) with 0. lia.
Qed.

Lemma run_over (letters : list string) (s : State) :
  isGameOver languages s = true -> run languages (map GuessLetter letters) s = s.
Proof.
  intros Hover. induction letters as [|l rest IH]; [reflexivity|].
  change (run languages (map GuessLetter (l :: rest)) s)
    with (run languages (map GuessLetter rest) (clickLetter languages l s)).
  now rewrite clickLetter_over.
Qed.

End Reached.

Lemma NoDup_keyboard : NoDup (Js.split alphabet).
Proof.
  vm_compute.
  repeat (constructor; [simpl; intros H; repeat (destruct H as [H|H]; [discriminate H|]); exact H|]).
  constructor.
Qed.

(** X5: in every state the component reaches from a fresh round, by new
    games and clicks on the keyboard, the guessed letters are letters of
    the keyboard without repetition, so at most 26; and the wrong guesses
    never exceed the allowance [languages.length - 1] (or 0 for an empty
    ladder). *)
Theorem component_keeps_guesses_in_bounds
    (languages : list Language) (picked : string) (cs : list Command) :
  NoDup (guessedLetters (run languages cs (initState picked))) /\
  Forall onKeyboard (guessedLetters (run languages cs (initState picked))) /\
  (List.length (guessedLetters (run languages cs (initState picked))) <= 26)%nat /\
  0 <= wrongGuessCount (run languages cs (initState picked))
    <= Z.max 0 (guessesLeft languages).
Proof.
  destruct (run_from_fresh languages picked cs) as [Hnd [Hkeys Hcount]].
  split; [exact Hnd|]. split; [exact Hkeys|]. split.
  - change 26%nat with (List.length (Js.split alphabet)).
    apply NoDup_incl_length; [exact Hnd|].
    intros x Hx. now apply (proj1 (Forall_forall _ _) Hkeys).
  - split; [apply wrongGuessCount_nonneg | exact Hcount].
Qed.

(** X6: whatever is played through the component, the chip of the last
    language of the ladder is never marked lost. *)
Theorem last_chip_is_never_lost
    (languages : list Language) (picked : string) (cs : list Command) :
  languages <> [] ->
  exists chip,
    nth_error (languageElements languages (run languages cs (initState picked)))
              (List.length languages - 1) = Some chip /\
    chip_className chip = "chip " /\
    chip_text chip = name (List.last languages (mkLanguage "" "" "")).
Proof.
  intros Hne.
  destruct (run_from_fresh languages picked cs) as [_ [_ Hcount]].
  assert (Hlen : (0 < List.length languages)%nat)
    by (destruct languages; [contradiction | simpl; lia]).
  destruct (nth_error languages (List.length languages - 1)) as [lang|] eqn:E;
    [|apply nth_error_None in E; lia].
  unfold languageElements. rewrite nth_error_mapi, E. simpl. eexists.
  split; [reflexivity|]. simpl. split.
  - unfold isLanguageLost.
    destruct (Z.ltb_spec (Z.of_nat (List.length languages - 1))
                         (wrongGuessCount (run languages cs (initState picked))))
      as [Hlt|_]; [|reflexivity].
    unfold guessesLeft, Js.length in Hcount. lia.
  - f_equal. rewrite <- (nth_error_nth _ _ (mkLanguage "" "" "") E).
    rewrite <- (rev_involutive languages) at 2. clear.
    destruct languages as [|x rest] using rev_ind; [reflexivity|].
    rewrite last_last, length_app. simpl.
    replace (List.length rest + 1 - 1)%nat with (List.length rest) by lia.
    now rewrite rev_involutive, app_nth2, Nat.sub_diag by lia.
Qed.

Lemma last_chip_is_never_lost_witness :
  exists chip,
    nth_error (languageElements ladder8
                 (run ladder8 (map GuessLetter (Js.split alphabet)) (initState "cat")))
              7 = Some chip /\
    chip_className chip = "chip " /\ chip_text chip = "tier7".
Proof.
  assert (Hne : ladder8 <> []) by discriminate.
  exact (last_chip_is_never_lost ladder8 "cat" (map GuessLetter (Js.split alphabet)) Hne).
Defined.

(** ** Playing on the keyboard *)

Lemma run_takes_a_prefix (languages : list Language) (letters : list string) (s : State) :
  Forall onKeyboard letters ->
  exists k, (k <= List.length letters)%nat /\
            run languages (map GuessLetter letters) s = guesses (firstn k letters) s /\
            (forall j, (j < k)%nat ->
                       isGameOver languages (guesses (firstn j letters) s) = false) /\
            (k = List.length letters \/
             isGameOver languages (guesses (firstn k letters) s) = true).
Proof.
  intros Hkeys. revert s. induction Hkeys as [|l rest Hl _ IH]; intros s.
  - exists 0%nat. repeat split; [lia | intros j Hj; lia | now left].
  - destruct (isGameOver languages s) eqn:Hover.
    + exists 0%nat. split; [simpl; lia|]. split; [now apply run_over|].
      split; [intros j Hj; lia | now right].
    + destruct (IH (addGuessedLetter l s)) as [k [Hk [Hrun [Hbefore Hend]]]].
      exists (S k). split; [simpl; lia|]. split; [|split].
      * change (run languages (map GuessLetter (l :: rest)) s)
          with (run languages (map GuessLetter rest) (clickLetter languages l s)).
        now rewrite clickLetter_playing.
      * intros [|j] Hj; [exact Hover|]. apply (Hbefore j). lia.
      * destruct Hend as [->|Hend]; [now left | now right].
Qed.

(** X7: of a sequence of clicks on the keyboard the component takes the
    clicks up to the first one that ends the game, each with the effect of
    [addGuessedLetter], and ignores all the clicks after it. *)
Theorem clicks_count_until_the_game_is_over
    (languages : list Language) (letters : list string) (s : State) :
  Forall onKeyboard letters ->
  exists k, (k <= List.length letters)%nat /\
            run languages (map GuessLetter letters) s = guesses (firstn k letters) s /\
            (forall j, (j < k)%nat ->
                       isGameOver languages (guesses (firstn j letters) s) = false) /\
            (k = List.length letters \/
             isGameOver languages (guesses (firstn k letters) s) = true).
Proof. apply run_takes_a_prefix. Qed.

Lemma clicks_count_until_the_game_is_over_witness :
  exists k, (k <= 5)%nat /\
            run ladder8 (map GuessLetter ["c"; "a"; "t"; "x"; "y"]) (initState "cat") =
            guesses (firstn k ["c"; "a"; "t"; "x"; "y"]) (initState "cat").
Proof.
  assert (Hkeys : Forall onKeyboard ["c"; "a"; "t"; "x"; "y"])
    by (repeat (apply Forall_cons; [now apply lowercase_on_keyboard|]); apply Forall_nil).
  destruct (clicks_count_until_the_game_is_over ladder8 ["c"; "a"; "t"; "x"; "y"]
              (initState "cat") Hkeys) as [k [Hk [Hrun _]]].
  exists k. split; [exact Hk | exact Hrun].
Defined.

(** X8: a round on a word of lowercase letters always comes to an end: once
    every key of the keyboard has been clicked, in whatever order and
    however often, the game is over. *)
Theorem clicking_every_key_ends_the_game
    (languages : list Language) (letters : list string) (s : State) :
  Forall onKeyboard (Js.split (currentWord s)) ->
  Forall onKeyboard letters ->
  (forall letter, onKeyboard letter -> In letter letters) ->
  isGameOver languages (run languages (map GuessLetter letters) s) = true.
Proof.
  intros Hword Hkeys Hall.
  destruct (run_takes_a_prefix languages letters s Hkeys) as [k [_ [Hrun [_ Hend]]]].
  rewrite Hrun. destruct Hend as [->|Hover]; [|exact Hover].
  rewrite firstn_all. unfold isGameOver. apply orb_true_iff. left.
  apply isGameWon_iff. intros x Hx. apply guesses_In. right.
  rewrite guesses_currentWord in Hx. apply Hall.
  now apply (proj1 (Forall_forall _ _) Hword).
Qed.

Lemma clicking_every_key_ends_the_game_witness :
  phase ladder8 (run ladder8 (map GuessLetter (Js.split alphabet)) (initState "cat")) = Lost /\
  phase ladder8 (run ladder8 (map GuessLetter (rev (Js.split alphabet))) (initState "cat")) = Lost /\
  isGameOver ladder8
    (run ladder8 (map GuessLetter (Js.split alphabet)) (initState "cat")) = true.
Proof.
  split; [vm_compute; reflexivity|]. split; [vm_compute; reflexivity|].
  apply clicking_every_key_ends_the_game.
  - repeat (apply Forall_cons; [now apply lowercase_on_keyboard|]); apply Forall_nil.
  - apply Forall_forall. intros x Hx. exact Hx.
  - intros letter Hkey. exact Hkey.
Defined.

(** X9: the component wins only words the keyboard can spell: in a state
    reached through it, [isGameWon] holds only if every code unit of the
    word is one of the 26 lowercase letters (a word with a capital, a
    hyphen or a space is never won). *)
Theorem only_keyboard_words_are_won
    (languages : list Language) (picked : string) (cs : list Command) :
  isGameWon (run languages cs (initState picked)) = true ->
  Forall onKeyboard (Js.split (currentWord (run languages cs (initState picked)))).
Proof.
  intros Hwon. destruct (run_from_fresh languages picked cs) as [_ [Hkeys _]].
  apply Forall_forall. intros x Hx.
  apply (proj1 (Forall_forall _ _) Hkeys). now apply (proj1 (isGameWon_iff _)).
Qed.

Lemma only_keyboard_words_are_won_witness :
  isGameWon (run ladder8 (map GuessLetter ["c"; "a"; "t"]) (initState "cat")) = true /\
  Forall onKeyboard (Js.split "cat") /\
  isGameWon (run ladder8 (map GuessLetter (Js.split alphabet)) (initState "Cat")) = false.
Proof.
  split; [reflexivity|]. split; [|vm_compute; reflexivity].
  exact (only_keyboard_words_are_won ladder8 "cat" (map GuessLetter ["c"; "a"; "t"]) eq_refl).
Defined.

(** ** The keys of the keyboard *)

Lemma key_className (guessed included : bool) :
  Js.clsx [("correct", guessed && included); ("wrong", guessed && negb included)] =
  if guessed then (if included then "correct" else "wrong") else "".
Proof. destruct guessed, included; reflexivity. Qed.

Lemma length_filter_map {A B : Type} (p : B -> bool) (f : A -> B) (l : list A) :
  List.length (filter p (map f l)) = List.length (filter (fun x => p (f x)) l).
Proof.
  induction l as [|x rest IH]; [reflexivity|]. simpl.
  destruct (p (f x)); simpl; now rewrite IH.
Qed.

Lemma length_filter_split (f : string -> bool) (l : list string) :
  (List.length (filter f l) + List.length (filter (fun x => negb (f x)) l))%nat = List.length l.
Proof.
  induction l as [|x rest IH]; [reflexivity|]. simpl.
  destruct (f x); simpl; lia.
Qed.

Lemma count_on_keyboard (f : string -> bool) (guessed : list string) :
  NoDup guessed -> Forall onKeyboard guessed ->
  List.length (filter (fun l => Js.arr_includes guessed l && f l) (Js.split alphabet)) =
  List.length (filter f guessed).
Proof.
  intros Hnd Hkeys. apply Permutation_length, NoDup_Permutation.
  - apply NoDup_filter, NoDup_keyboard.
  - now apply NoDup_filter.
  - intros x. rewrite !filter_In, andb_true_iff, arr_includes_In.
    split; [tauto|]. intros [Hin Hf]. repeat split; try assumption.
    now apply (proj1 (Forall_forall _ _) Hkeys).
Qed.

(** X10: the keyboard has one key for each letter of the alphabet, in its
    order. A key carries the class correct when its letter was guessed and
    is in the word, wrong when it was guessed and is not, and no class when
    it was not guessed; it is aria-disabled exactly when its letter was
    guessed, disabled exactly when the game is over, and its click passes
    its own letter. *)
Theorem keyboard_keys_show_the_guesses (languages : list Language) (s : State) :
  map btn_key (keyboardElements languages s) = Js.split alphabet /\
  List.length (keyboardElements languages s) = 26%nat /\
  Forall (fun b =>
            let guessed := Js.arr_includes (guessedLetters s) (btn_key b) in
            let included := Js.includes (currentWord s) (btn_key b) in
            btn_className b =
              (if guessed then (if included then "correct" else "wrong") else "") /\
            btn_ariaDisabled b = guessed /\
            btn_disabled b = isGameOver languages s /\
            btn_onClick b = btn_key b)
         (keyboardElements languages s).
Proof.
  split; [|split].
  - unfold keyboardElements. rewrite map_map. apply map_id.
  - unfold keyboardElements. now rewrite length_map.
  - apply Forall_forall. intros b Hb. unfold keyboardElements in Hb.
    apply in_map_iff in Hb. destruct Hb as [letter [<- _]].
    cbn [btn_className btn_key btn_ariaDisabled btn_disabled btn_onClick].
    rewrite key_className. repeat split.
Qed.

Lemma marked_keys (languages : list Language) (s : State) (class : string)
      (f : string -> bool) :
  NoDup (guessedLetters s) -> Forall onKeyboard (guessedLetters s) ->
  (forall l, String.eqb
               (if Js.arr_includes (guessedLetters s) l
                then (if Js.includes (currentWord s) l then "correct" else "wrong")
                else "") class =
             Js.arr_includes (guessedLetters s) l && f l) ->
  List.length (filter (fun b => String.eqb (btn_className b) class)
                      (keyboardElements languages s)) =
  List.length (filter f (guessedLetters s)).
Proof.
  intros Hnd Hkeys Hclass. unfold keyboardElements. rewrite length_filter_map.
  rewrite <- (count_on_keyboard f) by assumption. f_equal.
  apply filter_ext. intros l. cbn [btn_className]. rewrite key_className. apply Hclass.
Qed.

(** X11: in every state reached through the component the keys marked wrong
    are as many as the wrong guesses counted by [wrongGuessCount], the keys
    marked correct as many as the other guesses, and the aria-disabled keys
    as many as the guessed letters. *)
Theorem wrong_keys_are_the_wrong_guesses
    (languages : list Language) (picked : string) (cs : list Command) :
  let s := run languages cs (initState picked) in
  let marked class := filter (fun b => String.eqb (btn_className b) class)
                             (keyboardElements languages s) in
  Js.length (marked "wrong") = wrongGuessCount s /\
  Js.length (marked "correct") = Js.length (guessedLetters s) - wrongGuessCount s /\
  Js.length (filter btn_ariaDisabled (keyboardElements languages s)) =
    Js.length (guessedLetters s).
Proof.
  intros s marked. destruct (run_from_fresh languages picked cs) as [Hnd [Hkeys _]].
  fold s in Hnd, Hkeys.
  assert (Hwrong : List.length (marked "wrong") =
                   List.length (filter (isWrong s) (guessedLetters s))).
  { apply marked_keys; try assumption. intros l. unfold isWrong.
    destruct (Js.arr_includes _ _), (Js.includes _ _); reflexivity. }
  assert (Hright : List.length (marked "correct") =
                   List.length (filter (fun l => negb (isWrong s l)) (guessedLetters s))).
  { apply marked_keys; try assumption. intros l. unfold isWrong.
    destruct (Js.arr_includes _ _), (Js.includes _ _); reflexivity. }
  pose proof (length_filter_split (isWrong s) (guessedLetters s)) as Hsplit.
  unfold wrongGuessCount, Js.length. split; [|split].
  - now rewrite Hwrong.
  - rewrite Hright. lia.
  - transitivity (Z.of_nat (List.length (filter (fun _ => true) (guessedLetters s))));
      [|now rewrite filter_true].
    unfold keyboardElements. rewrite length_filter_map.
    rewrite <- (count_on_keyboard (fun _ => true)) by assumption. do 2 f_equal.
    apply filter_ext. intros l. cbn [btn_ariaDisabled]. now rewrite andb_true_r.
Qed.

(** ** The displayed word *)

Section Word.

Variable languages : list Language.

Lemma letterElements_nth (s : State) (i : nat) (cell : LetterSpan) :
  nth_error (letterElements languages s) i = Some cell <->
  exists c, nth_error (list_ascii_of_string (currentWord s)) i = Some c /\
            cell =
            {| span_key := i;
               span_className :=
                 if isGameLost languages s &&
                    negb (Js.arr_includes (guessedLetters s) (String c ""))
                 then "missed-letter" else "";
               span_text :=
                 if isGameLost languages s || Js.arr_includes (guessedLetters s) (String c "")
                 then String (Js.upper c) "" else "" |}.
Proof.
  unfold letterElements, Js.split. rewrite nth_error_mapi, nth_error_map.
  destruct (nth_error (list_ascii_of_string (currentWord s)) i) as [c|]; simpl.
  - split.
    + intros H. injection H as <-. now exists c.
    + intros [c' [H ->]]. now injection H as <-.
  - split; [discriminate | intros [c [H _]]; discriminate].
Qed.

Lemma srWordPieces_nth (s : State) (i : nat) (piece : string) :
  nth_error (srWordPieces s) i = Some piece <->
  exists c, nth_error (list_ascii_of_string (currentWord s)) i = Some c /\
            piece = if Js.arr_includes (guessedLetters s) (String c "")
                    then String c "." else "blank".
Proof.
  unfold srWordPieces, Js.split. rewrite !nth_error_map.
  destruct (nth_error (list_ascii_of_string (currentWord s)) i) as [c|]; simpl.
  - split.
    + intros H. injection H as <-. now exists c.
    + intros [c' [H ->]]. now injection H as <-.
  - split; [discriminate | intros [c [H _]]; discriminate].
Qed.

Lemma length_letterElements (s : State) :
  List.length (letterElements languages s) = String.length (currentWord s).
Proof.
  unfold letterElements, Js.mapi, Js.split. rewrite length_mapi_from, length_map.
  induction (currentWord s) as [|c rest IH]; simpl; congruence.
Qed.

Lemma char_of_word (s : State) (c : ascii) :
  In (String c "") (Js.split (currentWord s)) <->
  exists i, nth_error (list_ascii_of_string (currentWord s)) i = Some c.
Proof.
  rewrite In_split. split.
  - intros [c' [Heq Hin]]. injection Heq as <-. now apply In_nth_error.
  - intros [i Hi]. exists c. split; [reflexivity | now apply nth_error_In in Hi].
Qed.

End Word.

(** X12: the displayed word has one cell for each code unit of the word, and
    it is shown in full -- no cell is empty -- exactly when the game is
    over, won or lost. While a round is in play, the empty cells are those
    of the letters not guessed yet. *)
Theorem word_is_shown_in_full_when_over (languages : list Language) (s : State) :
  List.length (letterElements languages s) = String.length (currentWord s) /\
  (Forall (fun cell => span_text cell <> "") (letterElements languages s) <->
   isGameOver languages s = true) /\
  (isGameOver languages s = false ->
   forall i cell c,
     nth_error (letterElements languages s) i = Some cell ->
     nth_error (list_ascii_of_string (currentWord s)) i = Some c ->
     (span_text cell = "" <-> ~ In (String c "") (guessedLetters s)) /\
     (span_text cell = String (Js.upper c) "" <-> In (String c "") (guessedLetters s))).
Proof.
  split; [apply length_letterElements|]. split.
  - rewrite Forall_forall. unfold isGameOver. rewrite orb_true_iff. split.
    + intros Hshown. destruct (isGameLost languages s) eqn:Hlost; [now right | left].
      apply isGameWon_iff. intros letter Hin.
      destruct (proj1 (In_split _ _) Hin) as [c [-> Hc]].
      apply In_nth_error in Hc. destruct Hc as [i Hi].
      assert (Hcell : exists cell, nth_error (letterElements languages s) i = Some cell)
        by (eexists; apply letterElements_nth; eauto).
      destruct Hcell as [cell Hcell]. pose proof (Hshown cell (nth_error_In _ _ Hcell)) as Hne.
      apply letterElements_nth in Hcell. destruct Hcell as [c' [Hi' ->]].
      rewrite Hi in Hi'. injection Hi' as <-. simpl in Hne. rewrite Hlost in Hne. simpl in Hne.
      apply arr_includes_In. destruct (Js.arr_includes _ _); [reflexivity | contradiction].
    + intros Hover cell Hcell. apply In_nth_error in Hcell. destruct Hcell as [i Hcell].
      apply letterElements_nth in Hcell. destruct Hcell as [c [Hi ->]]. simpl.
      assert (Hshow : isGameLost languages s ||
                      Js.arr_includes (guessedLetters s) (String c "") = true).
      { apply orb_true_iff. destruct Hover as [Hwon|Hlost]; [right | now left].
        apply arr_includes_In. apply (proj1 (isGameWon_iff _) Hwon).
        apply char_of_word. eauto. }
      rewrite Hshow. discriminate.
  - intros Hplaying i cell c Hcell Hi. unfold isGameOver in Hplaying.
    apply orb_false_iff in Hplaying. destruct Hplaying as [_ Hlost].
    apply letterElements_nth in Hcell. destruct Hcell as [c' [Hi' ->]].
    rewrite Hi in Hi'. injection Hi' as <-. simpl. rewrite Hlost. simpl.
    rewrite <- arr_includes_In.
    destruct (Js.arr_includes (guessedLetters s) (String c "")); split; split;
      intros H; try reflexivity; try discriminate; congruence.
Qed.

Lemma forallb_false {A : Type} (f : A -> bool) (l : list A) :
  forallb f l = false -> exists x, In x l /\ f x = false.
Proof.
  induction l as [|x rest IH]; [discriminate|]. simpl.
  destruct (f x) eqn:E; simpl.
  - intros H. destruct (IH H) as [y [Hin Hy]]. exists y. auto.
  - intros _. exists x. auto.
Qed.

(** X13: a cell is flagged as a missed letter only in a lost game; a flagged
    cell always shows its letter; and some cell is flagged exactly when the
    game is lost without being won. *)
Theorem missed_letters_are_flagged_on_loss (languages : list Language) (s : State) :
  Forall (fun cell => span_className cell = "missed-letter" \/ span_className cell = "")
         (letterElements languages s) /\
  Forall (fun cell => span_className cell = "missed-letter" ->
                      isGameLost languages s = true /\ span_text cell <> "")
         (letterElements languages s) /\
  (Exists (fun cell => span_className cell = "missed-letter") (letterElements languages s) <->
   isGameLost languages s = true /\ isGameWon s = false).
Proof.
  split; [|split].
  - apply Forall_forall. intros cell Hcell. apply In_nth_error in Hcell.
    destruct Hcell as [i Hcell]. apply letterElements_nth in Hcell.
    destruct Hcell as [c [_ ->]]. simpl. destruct (_ && _); auto.
  - apply Forall_forall. intros cell Hcell. apply In_nth_error in Hcell.
    destruct Hcell as [i Hcell]. apply letterElements_nth in Hcell.
    destruct Hcell as [c [_ ->]]. simpl.
    destruct (isGameLost languages s); simpl; [|discriminate].
    intros _. split; [reflexivity | discriminate].
  - rewrite Exists_exists. split.
    + intros [cell [Hcell Hmissed]]. apply In_nth_error in Hcell.
      destruct Hcell as [i Hcell]. apply letterElements_nth in Hcell.
      destruct Hcell as [c [Hi ->]]. simpl in Hmissed.
      destruct (isGameLost languages s); simpl in Hmissed; [|discriminate].
      split; [reflexivity|].
      destruct (Js.arr_includes (guessedLetters s) (String c "")) eqn:Hg; [discriminate|].
      destruct (isGameWon s) eqn:Hwon; [|reflexivity].
      apply arr_includes_not_In in Hg. exfalso. apply Hg.
      apply (proj1 (isGameWon_iff _) Hwon). apply char_of_word. eauto.
    + intros [Hlost Hwon]. apply forallb_false in Hwon.
      destruct Hwon as [letter [Hin Hg]].
      destruct (proj1 (In_split _ _) Hin) as [c [-> Hc]].
      apply In_nth_error in Hc. destruct Hc as [i Hi].
      eexists. split.
      * eapply nth_error_In. apply letterElements_nth. exists c. split; [exact Hi | reflexivity].
      * simpl. now rewrite Hlost, Hg.
Qed.

(** ** The status *)

Lemma farewell_lookup (languages : list Language) (s : State) :
  farewellEligible languages s = true ->
  isGameWon s = false /\ isGameLost languages s = false /\
  exists tier, Js.get languages (wrongGuessCount s - 1) = Some tier.
Proof.
  unfold farewellEligible, isGameOver. rewrite andb_true_iff, negb_true_iff, orb_false_iff.
  intros [[Hwon Hlost] Hlast]. split; [exact Hwon|]. split; [exact Hlost|].
  rewrite isLastGuessCorrect_spec in Hlast. apply wrongGuessCount_last in Hlast.
  apply isGameLost_false_iff in Hlost. unfold guessesLeft in Hlost.
  apply get_Some. lia.
Qed.

Ltac settle_cases :=
  repeat match goal with
         | H : exists _, _ |- _ => destruct H
         | H : _ /\ _ |- _ => destruct H
         end;
  solve [discriminate | reflexivity | congruence | eauto].

(** X14: [gameStatus] shows the win exactly when the game is won -- also when
    it is lost as well --, the loss exactly when it is lost and not won, a
    farewell exactly when the game is not over and the last guess was
    wrong, and nothing exactly when the game is not over and there is no
    wrong last guess. *)
Theorem status_message_by_cases
    (languages : list Language) (getFarewellText : string -> string) (s : State) :
  (gameStatus languages getFarewellText s = Js.Normal YouWin <-> isGameWon s = true) /\
  (gameStatus languages getFarewellText s = Js.Normal GameOver <->
   isGameWon s = false /\ isGameLost languages s = true) /\
  (gameStatus languages getFarewellText s = Js.Normal NoMessage <->
   isGameOver languages s = false /\ isLastGuessCorrect s = false) /\
  ((exists text, gameStatus languages getFarewellText s = Js.Normal (FarewellMessage text)) <->
   isGameOver languages s = false /\ isLastGuessCorrect s = true).
Proof.
  unfold gameStatus. fold (farewellEligible languages s).
  destruct (farewellEligible languages s) eqn:He.
  - destruct (farewell_lookup languages s He) as [Hwon [Hlost [tier Htier]]].
    unfold farewellEligible in He. apply andb_true_iff in He. destruct He as [Hover Hlast].
    apply negb_true_iff in Hover. rewrite Htier, Hwon, Hlost, Hover, Hlast.
    repeat split; intros; settle_cases.
  - unfold farewellEligible, isGameOver in *.
    destruct (isGameWon s), (isGameLost languages s), (isLastGuessCorrect s);
      simpl in *; try discriminate He; repeat split; intros; settle_cases.
Qed.

(** X15: the class of the status section goes with the message shown in it:
    farewell with a farewell; won with the win, with lost added when the
    game is lost as well; lost alone with the loss; and no class beside
    game-status with no message. *)
Theorem status_class_goes_with_the_message
    (languages : list Language) (getFarewellText : string -> string) (s : State) :
  match gameStatus languages getFarewellText s with
  | Js.Normal (FarewellMessage _) => gameStatusClass languages s = "game-status farewell"
  | Js.Normal YouWin =>
      gameStatusClass languages s =
      if isGameLost languages s then "game-status won lost" else "game-status won"
  | Js.Normal GameOver => gameStatusClass languages s = "game-status lost"
  | Js.Normal NoMessage => gameStatusClass languages s = "game-status"
  | Js.Throw _ => False
  end.
Proof.
  unfold gameStatus, gameStatusClass. fold (farewellEligible languages s).
  destruct (farewellEligible languages s) eqn:He.
  - destruct (farewell_lookup languages s He) as [Hwon [Hlost [tier Htier]]].
    now rewrite Htier, Hwon, Hlost.
  - destruct (isGameWon s), (isGameLost languages s); reflexivity.
Qed.

(** ** The screen-reader status *)

Lemma prefix_length (search s : string) :
  prefix search s = true -> (String.length search <= String.length s)%nat.
Proof.
  revert s. induction search as [|c rest IH]; intros s; [simpl; lia|].
  destruct s as [|d s']; [discriminate|]. simpl.
  destruct (ascii_dec c d); [|discriminate]. intros H. apply IH in H. lia.
Qed.

Lemma includes_length (s search : string) :
  Js.includes s search = true -> (String.length search <= String.length s)%nat.
Proof.
  induction s as [|c rest IH]; cbn [Js.includes]; rewrite orb_true_iff.
  - intros [H|H]; [now apply prefix_length in H | discriminate].
  - intros [H|H]; [now apply prefix_length in H | apply IH in H; simpl; lia].
Qed.

(** X16: the sentence of the screen-reader status is about the last guessed
    letter: after a new letter it says Correct when the letter is in the
    word and Sorry when it is not. With no guess yet it is about the letter
    "undefined", and says Sorry for every word shorter than nine code
    units. The number of attempts it gives is always [languages.length - 1]:
    the guesses made do not lower it. *)
Theorem screen_reader_sentence
    (languages : list Language) (picked letter : string) (s : State) :
  (~ In letter (guessedLetters s) ->
   sr_sentence (srStatus languages (addGuessedLetter letter s)) =
   if Js.includes (currentWord s) letter
   then "Correct! The letter " ++ letter ++ " is in the word"
   else "Sorry, the letter " ++ letter ++ " is not in the word") /\
  sr_sentence (srStatus languages (newGame picked s)) =
    (if Js.includes picked "undefined"
     then "Correct! The letter undefined is in the word"
     else "Sorry, the letter undefined is not in the word") /\
  ((String.length picked < 9)%nat ->
   sr_sentence (srStatus languages (newGame picked s)) =
   "Sorry, the letter undefined is not in the word") /\
  sr_attempts (srStatus languages (addGuessedLetter letter s)) = Js.length languages - 1 /\
  sr_attempts (srStatus languages s) = Js.length languages - 1.
Proof.
  split; [|split; [|split; [|split]]]; try reflexivity.
  - intros Hnew.
    assert (Hlast : lastGuessedLetter (addGuessedLetter letter s) = Some letter).
    { rewrite addGuessedLetter_new by assumption.
      unfold lastGuessedLetter. rewrite get_last. simpl. now rewrite rev_app_distr. }
    unfold srStatus. simpl. rewrite Hlast. reflexivity.
  - intros Hshort. unfold srStatus. simpl.
    change (lastGuessedLetter (newGame picked s)) with (@None string). simpl.
    destruct (Js.includes picked "undefined") eqn:E; [|reflexivity].
    apply includes_length in E. simpl in E. lia.
Qed.

Lemma screen_reader_sentence_witness :
  sr_sentence (srStatus ladder8 (addGuessedLetter "x" (initState "cat"))) =
    "Sorry, the letter x is not in the word" /\
  sr_sentence (srStatus ladder8 (newGame "cat" (initState "dog"))) =
    "Sorry, the letter undefined is not in the word".
Proof.
  destruct (screen_reader_sentence ladder8 "cat" "x" (initState "cat"))
    as [Hnew _].
  destruct (screen_reader_sentence ladder8 "cat" "x" (initState "dog"))
    as [_ [_ [Hfresh _]]].
  split.
  - apply Hnew. intros [].
  - apply Hfresh. simpl. lia.
Defined.

(** X17: the screen-reader reading of the word has one piece for each cell
    of the displayed word, and a piece reads "blank" exactly when its cell
    is empty or flagged as a missed letter: in a lost game the letters the
    display reveals as missed are still read as blank. *)
Theorem screen_reader_word_matches_the_cells (languages : list Language) (s : State) :
  List.length (srWordPieces s) = List.length (letterElements languages s) /\
  srCurrentWord s = String.concat " " (srWordPieces s) /\
  forall i cell piece,
    nth_error (letterElements languages s) i = Some cell ->
    nth_error (srWordPieces s) i = Some piece ->
    (piece = "blank" <->
     span_text cell = "" \/ span_className cell = "missed-letter") /\
    (piece <> "blank" -> piece = String.substring 0 1 piece ++ "." /\
                         span_text cell = Js.toUpperCase (String.substring 0 1 piece)).
Proof.
  split; [|split; [reflexivity|]].
  - unfold srWordPieces, letterElements, Js.mapi.
    now rewrite length_mapi_from, length_map.
  - intros i cell piece Hcell Hpiece.
    apply letterElements_nth in Hcell. destruct Hcell as [c [Hi ->]].
    apply srWordPieces_nth in Hpiece. destruct Hpiece as [c' [Hi' ->]].
    rewrite Hi in Hi'. injection Hi' as <-. simpl.
    destruct (Js.arr_includes (guessedLetters s) (String c "")),
             (isGameLost languages s); simpl; split;
      try (split; [discriminate | intros [H|H]; discriminate]);
      try (split; [auto | reflexivity]);
      try (intros _; split; reflexivity);
      try (intros H; now contradiction H).
Qed.

(** ** The order of the guesses *)

Lemma arr_includes_Permutation (a b : list string) (x : string) :
  Permutation a b -> Js.arr_includes a x = Js.arr_includes b x.
Proof.
  intros Hperm. apply eq_true_iff_eq. rewrite !arr_includes_In.
  split; apply Permutation_in; [assumption | now apply Permutation_sym].
Qed.

Lemma mapi_from_ext {A B : Type} (f g : A -> nat -> B) (l : list A) (k : nat) :
  (forall x i, f x i = g x i) -> Js.mapi_from f k l = Js.mapi_from g k l.
Proof.
  intros Hext. revert k. induction l as [|x rest IH]; intros k; [reflexivity|].
  simpl. now rewrite Hext, IH.
Qed.

(** X18: what is shown of a round depends on the guessed letters, not on
    the order they were guessed in, the last guess apart: two states with
    the same word and the same guessed letters in different orders agree on
    [isGameWon], [isGameLost], the phase, the chips, the displayed word, the
    keyboard and the screen-reader reading of the word. *)
Theorem order_of_guesses_only_matters_for_the_last
    (languages : list Language) (s t : State) :
  currentWord s = currentWord t ->
  Permutation (guessedLetters s) (guessedLetters t) ->
  isGameWon s = isGameWon t /\
  isGameLost languages s = isGameLost languages t /\
  phase languages s = phase languages t /\
  languageElements languages s = languageElements languages t /\
  letterElements languages s = letterElements languages t /\
  keyboardElements languages s = keyboardElements languages t /\
  srWordPieces s = srWordPieces t.
Proof.
  intros Hword Hperm.
  assert (Hinc : forall x, Js.arr_includes (guessedLetters s) x =
                           Js.arr_includes (guessedLetters t) x)
    by (intros x; now apply arr_includes_Permutation).
  assert (Hcount : wrongGuessCount s = wrongGuessCount t)
    by now apply wrongGuessCount_same_word.
  assert (Hwon : isGameWon s = isGameWon t).
  { unfold isGameWon. rewrite Hword.
    induction (Js.split (currentWord t)) as [|x rest IH]; [reflexivity|].
    simpl. now rewrite Hinc, IH. }
  assert (Hlost : isGameLost languages s = isGameLost languages t)
    by (unfold isGameLost; now rewrite Hcount).
  split; [exact Hwon|]. split; [exact Hlost|]. split; [|split; [|split; [|split]]].
  - unfold phase. now rewrite Hwon, Hlost.
  - now apply languageElements_same_count.
  - unfold letterElements, Js.mapi. rewrite Hword, Hlost. apply mapi_from_ext.
    intros x i. now rewrite Hinc.
  - unfold keyboardElements, isGameOver. rewrite Hword, Hwon, Hlost. apply map_ext.
    intros x. now rewrite Hinc.
  - unfold srWordPieces. rewrite Hword. apply map_ext. intros x. now rewrite Hinc.
Qed.

Lemma order_of_guesses_only_matters_for_the_last_witness :
  let s := guesses ["c"; "x"] (initState "cat") in
  let t := guesses ["x"; "c"] (initState "cat") in
  keyboardElements ladder8 s = keyboardElements ladder8 t /\
  letterElements ladder8 s = letterElements ladder8 t /\
  farewellEligible ladder8 s = true /\ farewellEligible ladder8 t = false.
Proof.
  assert (Hperm : Permutation (guessedLetters (guesses ["c"; "x"] (initState "cat")))
                              (guessedLetters (guesses ["x"; "c"] (initState "cat"))))
    by apply perm_swap.
  destruct (order_of_guesses_only_matters_for_the_last ladder8
              (guesses ["c"; "x"] (initState "cat")) (guesses ["x"; "c"] (initState "cat"))
              eq_refl Hperm) as [_ [_ [_ [_ [Hword [Hkeys _]]]]]].
  split; [exact Hkeys|]. split; [exact Hword|]. split; reflexivity.
Defined.

(** ** The two buttons *)

(** X19: of the keyboard and the "New Game" button only one is live at a
    time: while the round is in play a click on "New Game" does nothing, as
    there is no such button, and the word stays; once the game is over a
    click on a key does nothing. Every state reached by clicks from a fresh
    round is reached by the commands of those clicks that had an effect. *)
Theorem one_kind_of_click_is_live
    (languages : list Language) (picked : string) (cs : list Click) :
  (forall s c, isGameOver languages s = false ->
               currentWord (click languages s c) = currentWord s) /\
  (forall s p, isGameOver languages s = false -> click languages s (ClickNewGame p) = s) /\
  (forall s l, isGameOver languages s = true -> click languages s (ClickKey l) = s) /\
  (forall s p, isGameOver languages s = true ->
               click languages s (ClickNewGame p) = initState p) /\
  exists cmds,
    clicks languages cs (initState picked) = run languages cmds (initState picked) /\
    (List.length cmds <= List.length cs)%nat /\
    Forall (fun cmd => match cmd with
                       | NewGame p => In (ClickNewGame p) cs
                       | GuessLetter l => In (ClickKey l) cs
                       end) cmds.
Proof.
  split; [|split; [|split; [|split]]].
  - intros s [l|p] Hplaying; simpl.
    + destruct (clickLetter_cases languages l s) as [->|[_ ->]]; reflexivity.
    + unfold clickNewGame, newGameButtonShown. now rewrite Hplaying.
  - intros s p Hplaying. simpl. unfold clickNewGame, newGameButtonShown. now rewrite Hplaying.
  - intros s l Hover. simpl. now apply clickLetter_over.
  - intros s p Hover. simpl. unfold clickNewGame, newGameButtonShown. now rewrite Hover.
  - generalize (initState picked). induction cs as [|c rest IH]; intros s.
    + exists []. repeat split; [simpl; lia | constructor].
    + destruct (IH (click languages s c)) as [cmds [Hrun [Hlen Hfrom]]].
      assert (Hweaken : Forall (fun cmd => match cmd with
                                           | NewGame p => In (ClickNewGame p) (c :: rest)
                                           | GuessLetter l => In (ClickKey l) (c :: rest)
                                           end) cmds).
      { apply Forall_forall. intros cmd Hcmd.
        pose proof (proj1 (Forall_forall _ _) Hfrom cmd Hcmd) as H.
        destruct cmd; now right. }
      change (clicks languages (c :: rest) s) with (clicks languages rest (click languages s c)).
      rewrite Hrun. destruct c as [l|p].
      * exists (GuessLetter l :: cmds). split; [reflexivity|]. split; [simpl; lia|].
        constructor; [now left | exact Hweaken].
      * simpl. unfold clickNewGame, newGameButtonShown.
        destruct (isGameOver languages s).
        -- exists (NewGame p :: cmds). split; [reflexivity|]. split; [simpl; lia|].
           constructor; [now left | exact Hweaken].
        -- exists cmds. split; [reflexivity|]. split; [simpl; lia | exact Hweaken].
Qed.

(** ** Within a round *)

(** X20: within a round nothing is taken back, whatever is guessed: a won
    game stays won and a lost game stays lost, and each guess raises the
    number of wrong guesses by one at most. *)
Theorem guesses_take_nothing_back
    (languages : list Language) (letters : list string) (s : State) :
  (isGameWon s = true -> isGameWon (guesses letters s) = true) /\
  (isGameLost languages s = true -> isGameLost languages (guesses letters s) = true) /\
  wrongGuessCount s <= wrongGuessCount (guesses letters s)
    <= wrongGuessCount s + Js.length letters.
Proof.
  revert s. induction letters as [|l rest IH]; intros s.
  - unfold Js.length. simpl. repeat split; auto; lia.
  - change (guesses (l :: rest) s) with (guesses rest (addGuessedLetter l s)).
    destruct (IH (addGuessedLetter l s)) as [Hwon [Hlost Hcount]].
    split; [|split].
    + intros H. now apply Hwon, isGameWon_add.
    + intros H. now apply Hlost, isGameLost_add.
    + rewrite wrongGuessCount_add in Hcount. unfold Js.length in *.
      simpl List.length. destruct (Js.arr_includes _ _); [lia|].
      destruct (Js.includes _ _); lia.
Qed.

(** ** A ladder too short to play *)

(** X21: with an empty ladder or a ladder of one language the allowance is
    used up before the first guess: every round is lost from its start,
    every key is disabled, and no letter is ever guessed through the
    component; with two languages or more a fresh round is not lost. *)
Theorem short_ladder_loses_at_once
    (languages : list Language) (picked : string) (cs : list Command) :
  (isGameLost languages (initState picked) = true <-> Js.length languages <= 1) /\
  (Js.length languages <= 1 ->
   guessedLetters (run languages cs (initState picked)) = [] /\
   isGameLost languages (run languages cs (initState picked)) = true /\
   Forall (fun b => btn_disabled b = true)
          (keyboardElements languages (run languages cs (initState picked)))).
Proof.
  assert (Hstart : forall s, guessedLetters s = [] ->
                             (isGameLost languages s = true <-> Js.length languages <= 1)).
  { intros s Hnone. rewrite isGameLost_iff. unfold guessesLeft, wrongGuessCount.
    rewrite Hnone. unfold Js.length. simpl. lia. }
  split; [now apply Hstart|]. intros Hshort.
  assert (Hnone : guessedLetters (run languages cs (initState picked)) = []).
  { generalize (initState picked) (eq_refl : guessedLetters (initState picked) = []).
    induction cs as [|c rest IH]; intros s Hs; [exact Hs|].
    change (run languages (c :: rest) s) with (run languages rest (step languages s c)).
    apply IH. destruct c as [p|l]; simpl; [reflexivity|].
    rewrite clickLetter_over; [exact Hs|].
    unfold isGameOver. apply orb_true_iff. right. now apply Hstart. }
  assert (Hlost : isGameLost languages (run languages cs (initState picked)) = true)
    by now apply Hstart.
  split; [exact Hnone|]. split; [exact Hlost|].
  apply Forall_forall. intros b Hb. apply keyboard_button in Hb.
  destruct Hb as [_ [_ ->]]. unfold isGameOver. rewrite Hlost. apply orb_true_r.
Qed.

Lemma short_ladder_loses_at_once_witness :
  let one := [mkLanguage "Assembly" "#2D519F" "#F9F4DA"] in
  guessedLetters (run one (map GuessLetter ["c"; "a"; "t"]) (initState "cat")) = [] /\
  phase one (initState "cat") = Lost.
Proof.
  destruct (short_ladder_loses_at_once [mkLanguage "Assembly" "#2D519F" "#F9F4DA"]
              "cat" (map GuessLetter ["c"; "a"; "t"])) as [_ Hshort].
  split; [|reflexivity].
  apply Hshort. unfold Js.length. simpl. lia.
Defined.
